(** * Request-identity middleware of serverless-compose

    A shallow embedding of [packages/request-id/src/middleware.ts]: the
    byte-to-hex and hex-to-UUID encoders, the fallback resolution of the
    identifier bundle from the inbound headers, and the merge of the
    identity headers into the response of the wrapped handler. *)

From Stdlib Require Import NArith ZArith Ascii String List Lia.
From stdpp Require Import base option list strings gmap fin_maps pretty.

(** ** The JavaScript primitives the module relies on *)

Module JS.

(** The first [n] characters of [s] (all of [s] when it is shorter). *)
Fixpoint take (n : nat) (s : string) : string :=
  match n, s with
  | S n', String c s' => String c (take n' s')
  | _, _ => ""
  end.

(** [s] without its first [n] characters. *)
Fixpoint drop (n : nat) (s : string) : string :=
  match n, s with
  | S n', String _ s' => drop n' s'
  | _, _ => s
  end.

(** [s.slice(a, b)] for non-negative literal bounds: the characters at
    positions [a] up to, but not including, [b], clipped to [s]. *)
Definition slice (s : string) (a b : nat) : string := take (b - a) (drop a s).

(** [s.substr(start)] for a non-negative [start]. *)
Definition substr (s : string) (start : nat) : string := drop start s.

(** [strs.join('')]. *)
Definition join (strs : list string) : string := String.concat "" strs.

(** [s.replace(pat, rep)] with a string pattern: only the first
    occurrence of [pat] is replaced. *)
Fixpoint replace (pat rep s : string) : string :=
  if String.prefix pat s then rep +:+ drop (String.length pat) s
  else match s with
       | "" => ""
       | String c s' => String c (replace pat rep s')
       end.

Definition hexDigit (d : N) : ascii :=
  match String.get (N.to_nat d) "0123456789abcdef" with
  | Some c => c
  | None => "0"%char
  end.

Fixpoint toString16_go (fuel : nat) (n : N) (acc : string) : string :=
  match fuel with
  | O => acc
  | S fuel' =>
      let acc' := String (hexDigit (n mod 16)) acc in
      if (n / 16 =? 0)%N then acc' else toString16_go fuel' (n / 16)%N acc'
  end.

(** [n.toString(16)] for a non-negative integer [n]; the number of bits
    of [n] bounds the number of its hexadecimal digits. *)
Definition toString16 (n : N) : string :=
  toString16_go (S (N.size_nat n)) n "".

(** JavaScript values, as far as responses need them. *)
#[warnings="-register-all"] Inductive value : Type :=
| VUndefined
| VNull
| VBool (b : bool)
| VNum (n : Z)
| VStr (s : string)
| VObj (o : gmap string value).

(** Truthiness: [undefined], [null], [false], [0] and [''] are falsy. *)
Definition truthy (v : value) : bool :=
  match v with
  | VUndefined | VNull => false
  | VBool b => b
  | VNum n => negb (n =? 0)%Z
  | VStr s => negb (String.eqb s "")
  | VObj _ => true
  end.

(** An object literal [{k1: v1, ..., kn: vn}]: later keys win. *)
Definition object (props : list (string * value)) : gmap string value :=
  foldl (λ o kv, <[kv.1 := kv.2]> o) ∅ props.

(** The own enumerable properties copied by the spread [{...v}]:
    the properties of an object, the indexed characters of a string,
    nothing for any other primitive. *)
Definition spread (v : value) : gmap string value :=
  match v with
  | VObj o => o
  | VStr s =>
      list_to_map
        (imap (λ i c, (pretty i, VStr (String c ""))) (list_ascii_of_string s))
  | _ => ∅
  end.

(** What a promise settles to. A failure is a [TypeError] raised by the
    language itself or whatever else was thrown. *)
Inductive Error : Type :=
| TypeError
| Thrown (reason : value).

Inductive Promise (A : Type) : Type :=
| Resolved (a : A)
| Rejected (e : Error).
Arguments Resolved {A} a.
Arguments Rejected {A} e.

(** [await p] inside an [async] function: go on with the value, or
    reject with the very same failure. *)
Definition await {A B : Type} (p : Promise A) (k : A → Promise B) : Promise B :=
  match p with
  | Resolved a => k a
  | Rejected e => Rejected e
  end.

(** Property read [v.k] / [v[k]] for a key that no primitive wrapper
    defines: throws on [undefined] and [null]. *)
Definition get (v : value) (k : string) : Promise value :=
  match v with
  | VUndefined | VNull => Rejected TypeError
  | VObj o => Resolved (default VUndefined (o !! k))
  | _ => Resolved VUndefined
  end.

End JS.

Notation "x ← 'await' p ; k" := (JS.await p (λ x, k))
  (at level 20, p at level 100, k at level 200, only parsing).

(** ** Encoding layer *)

(** The table filled by the top-level loop
    [for (i = 0; i < 256; ++i) byteToHex[i] = (i + 0x100).toString(16).substr(1)]. *)
Definition byteToHex : list string :=
  (λ i, JS.substr (JS.toString16 (N.of_nat i + 256)) 1) <$> seq 0 256.

(** [bytes.map((byte) => byteToHex[byte]).join('')]; an index outside the
    table reads [undefined], which [join] renders as the empty string. *)
Definition bytesToHexString (bytes : list N) : string :=
  JS.join ((λ byte, default "" (byteToHex !! N.to_nat byte)) <$> bytes).

Definition formatHexAsUUID (hexString : string) : string :=
  JS.join
    [ JS.slice hexString 0 8; "-";
      JS.slice hexString 8 12; "-";
      JS.slice hexString 12 16; "-";
      JS.slice hexString 16 24; "-";
      JS.slice hexString 24 36 ].

Definition bytesToUuid (bytes : list N) : string :=
  let hexString := bytesToHexString bytes in
  formatHexAsUUID hexString.

(** Optional strings: [None] is [undefined] (or [null]). *)
Definition convertMaybeUuidToHexString (uuid : option string) : option string :=
  match uuid with
  | None => None
  | Some u => if String.eqb u "" then None else Some (JS.replace "-" "" u)
  end.

Definition convertMaybeHexStringToUuid (hexString : option string) : option string :=
  match hexString with
  | None => None
  | Some h => if String.eqb h "" then None else Some (formatHexAsUUID h)
  end.

(** ** Resolution layer *)

Record RequestIdentity : Type := {
  correlationId : string;
  parentId : option string;
  requestId : string;
  sessionId : string;
  spanId : string;
  traceId : string
}.

Record RequestIdentifierContext : Type := {
  requestIdentity : RequestIdentity
}.

(** The inbound event, at the shape the middleware reads it: a header
    map whose entries are strings (the locals that receive them are
    annotated [string | undefined]) next to whatever else the event
    carries. *)
Record Event : Type := {
  headers : gmap string string;
  payload : gmap string JS.value
}.

(** [Handler] of the composition library: an asynchronous function of an
    event and a context. *)
Definition Handler (TEvent TContext TResult : Type) : Type :=
  TEvent → TContext → JS.Promise TResult.

(** [a || b] on optional strings: [a] when it is a non-empty string. *)
Definition or (a b : option string) : option string :=
  match a with
  | Some s => if String.eqb s "" then b else a
  | None => b
  end.

(** [a || b] when [b] is a string: the outcome is a string. *)
Definition orElse (a : option string) (b : string) : string :=
  match a with
  | Some s => if String.eqb s "" then b else s
  | None => b
  end.

Infix "|||" := or (at level 50, left associativity).
Infix "||!" := orElse (at level 50, left associativity).

(** [event.headers[key]]. *)
Definition header (event : Event) (key : string) : option string :=
  headers event !! key.

Section Resolution.
(** The contents of the two 16-element arrays once [uuidv4] has filled
    them. *)
Variables trace span : list N.
Variable event : Event.

#[local] Abbreviation header := (header event).

Definition inboundCorrelationId : option string :=
  header "correlation-id" ||| header "x-correlation-id".

Definition inboundParentId : option string :=
  header "parent-id" ||| header "x-parent-id" ||| header "x-b3-parentspanid".

Definition inboundRequestId : option string :=
  header "request-id" ||| header "x-request-id".

Definition inboundSessionId : option string :=
  header "session-id" ||| header "x-session-id".

Definition inboundSpanId : option string :=
  header "span-id" ||| header "x-span-id" ||| header "x-b3-spanid".

Definition inboundTraceId : option string :=
  header "trace-id" ||| header "x-trace-id" ||| header "x-b3-traceid".

(** The [requestIdentifierContext] constant of the middleware. The
    spread [...(parentId && {parentId})] adds the field only for a
    truthy [parentId]. *)
Definition requestIdentifierContext : RequestIdentifierContext :=
  let correlationId := inboundCorrelationId in
  let parentId := inboundParentId in
  let requestId := inboundRequestId in
  let sessionId := inboundSessionId in
  let spanId := inboundSpanId in
  let traceId := inboundTraceId in
  {| requestIdentity := {|
       correlationId :=
         correlationId
         ||| convertMaybeHexStringToUuid traceId
         ||! bytesToUuid trace;
       parentId :=
         match parentId with
         | Some p => if String.eqb p "" then None else Some p
         | None => None
         end;
       requestId :=
         requestId
         ||| correlationId
         ||| convertMaybeHexStringToUuid traceId
         ||! bytesToUuid trace;
       sessionId :=
         sessionId
         ||| correlationId
         ||| convertMaybeHexStringToUuid traceId
         ||! bytesToUuid trace;
       spanId := spanId ||! bytesToHexString (firstn 8 span);
       traceId :=
         traceId
         ||| convertMaybeUuidToHexString correlationId
         ||! bytesToHexString trace
     |}
  |}.
End Resolution.

(** An optional string as a property value. *)
Definition ofOption (s : option string) : JS.value :=
  match s with
  | Some s => JS.VStr s
  | None => JS.VUndefined
  end.

(** The [headers] constant of the middleware: the outbound identity
    headers. *)
Definition identityHeaders (ctx : RequestIdentifierContext) : gmap string JS.value :=
  let id := requestIdentity ctx in
  JS.object
    [ ("correlation-id", JS.VStr (correlationId id));
      ("x-correlation-id", JS.VStr (correlationId id));
      ("parent-id", ofOption (parentId id));
      ("x-parent-id", ofOption (parentId id));
      ("x-b3-parentspanid", ofOption (parentId id));
      ("request-id", JS.VStr (requestId id));
      ("x-request-id", JS.VStr (requestId id));
      ("session-id", JS.VStr (sessionId id));
      ("x-session-id", JS.VStr (sessionId id));
      ("span-id", JS.VStr (spanId id));
      ("x-span-id", JS.VStr (spanId id));
      ("x-b3-spanid", JS.VStr (spanId id));
      ("trace-id", JS.VStr (traceId id));
      ("x-trace-id", JS.VStr (traceId id));
      ("x-b3-traceid", JS.VStr (traceId id)) ].

(** [{...result, headers: {...(result.headers || {}), ...headers}}]:
    in a spread the later source wins, and [∪] prefers its left operand.
    Reading [result.headers] throws when [result] is [undefined] or
    [null]; a throw inside the [async] function rejects its promise, so
    the read is sequenced like an [await]. *)
Definition mergeHeaders (result : JS.value) (headers : gmap string JS.value)
  : JS.Promise JS.value :=
  resultHeaders ← await JS.get result "headers";
  let base := if JS.truthy resultHeaders then resultHeaders else JS.VObj ∅ in
  JS.Resolved
    (JS.VObj (<["headers" := JS.VObj (headers ∪ JS.spread base)]> (JS.spread result))).

(** The middleware. [next] is called with the event alone, so its
    context parameter is [undefined], here [None]. [trace] and [span]
    are what the two [uuidv4(null, _)] calls wrote. *)
Definition _DefaultAPIGatewayProxyRequestIdentifyingMiddleware {TContext : Type}
    (next : Handler Event (option TContext) JS.value)
    (trace span : list N) (event : Event) : JS.Promise JS.value :=
  let requestIdentifierContext := requestIdentifierContext trace span event in
  result ← await next event None;
  let headers := identityHeaders requestIdentifierContext in
  mergeHeaders result headers.

(** ** Vocabulary of the specification *)

(** The header names the middleware reads and writes. *)
Definition identityKeys : list string :=
  [ "correlation-id"; "x-correlation-id";
    "parent-id"; "x-parent-id"; "x-b3-parentspanid";
    "request-id"; "x-request-id";
    "session-id"; "x-session-id";
    "span-id"; "x-span-id"; "x-b3-spanid";
    "trace-id"; "x-trace-id"; "x-b3-traceid" ].

(** What [uuidv4(null, buffer)] leaves in a 16-element array: sixteen
    bytes. *)
Definition uuidBuffer (bytes : list N) : Prop :=
  length bytes = 16 ∧ Forall (λ byte, (byte < 256)%N) bytes.

Definition isHexDigit (c : ascii) : bool :=
  let n := N_of_ascii c in
  ((48 <=? n) && (n <=? 57) || (97 <=? n) && (n <=? 102)
   || (65 <=? n) && (n <=? 70))%N.

Fixpoint allChars (P : ascii → bool) (s : string) : bool :=
  match s with
  | "" => true
  | String c s' => P c && allChars P s'
  end.

(** A syntactically valid 32-character hexadecimal string. *)
Definition isHex32 (h : string) : Prop :=
  String.length h = 32 ∧ allChars isHexDigit h = true.

(** The hyphen-stripping inverse the specification has in mind: every
    hyphen goes. *)
Fixpoint stripHyphens (s : string) : string :=
  match s with
  | "" => ""
  | String c s' =>
      if Ascii.eqb c "-" then stripHyphens s' else String c (stripHyphens s')
  end.

(** The hyphen-separated groups of an identifier. *)
Fixpoint groups (s : string) : list string :=
  match s with
  | "" => [""]
  | String c s' =>
      if Ascii.eqb c "-" then "" :: groups s'
      else match groups s' with
           | g :: gs => String c g :: gs
           | [] => [String c ""]
           end
  end.

(** The value a header key stands for in a bundle: each field is written
    under its plain and its [x-] name, and the three tracing fields also
    under their [x-b3-] name. No other key belongs to the set. *)
Definition bundleValue (id : RequestIdentity) (key : string) : option JS.value :=
  if decide (key ∈ ["correlation-id"; "x-correlation-id"])
  then Some (JS.VStr (correlationId id))
  else if decide (key ∈ ["parent-id"; "x-parent-id"; "x-b3-parentspanid"])
  then Some (ofOption (parentId id))
  else if decide (key ∈ ["request-id"; "x-request-id"])
  then Some (JS.VStr (requestId id))
  else if decide (key ∈ ["session-id"; "x-session-id"])
  then Some (JS.VStr (sessionId id))
  else if decide (key ∈ ["span-id"; "x-span-id"; "x-b3-spanid"])
  then Some (JS.VStr (spanId id))
  else if decide (key ∈ ["trace-id"; "x-trace-id"; "x-b3-traceid"])
  then Some (JS.VStr (traceId id))
  else None.

(** An event that carries none of the identity headers. *)
Definition noIdentityHeaders (event : Event) : Prop :=
  ∀ key, key ∈ identityKeys → headers event !! key = None.

(** An event whose only identity header is [correlation-id]. *)
Definition onlyCorrelationId (event : Event) (v : string) : Prop :=
  headers event !! "correlation-id" = Some v ∧
  ∀ key, key ∈ identityKeys → key ≠ "correlation-id" →
         headers event !! key = None.

(** ** Sample inputs *)

Definition sampleTrace : list N :=
  [0; 1; 2; 3; 4; 5; 6; 7; 8; 9; 10; 11; 12; 13; 14; 15]%N.
Definition sampleSpan : list N :=
  [240; 241; 242; 243; 244; 245; 246; 247;
   248; 249; 250; 251; 252; 253; 254; 255]%N.
Definition sampleHex : string := "0123456789abcdef0123456789abcdef".
Definition sampleUuid : string := "11111111-1111-1111-1111-111111111111".

Definition emptyEvent : Event := {| headers := ∅; payload := ∅ |}.
Definition correlatedEvent : Event :=
  {| headers := {[ "correlation-id" := sampleUuid ]};
     payload := {[ "body" := JS.VStr "{}" ]} |}.


(** A bundle as the object a handler would find in its context. *)
Definition identityValue (id : RequestIdentity) : JS.value :=
  JS.VObj
    (JS.object
       ([ ("correlationId", JS.VStr (correlationId id)) ]
        ++ match parentId id with
           | Some p => [ ("parentId", JS.VStr p) ]
           | None => []
           end
        ++ [ ("requestId", JS.VStr (requestId id));
             ("sessionId", JS.VStr (sessionId id));
             ("spanId", JS.VStr (spanId id));
             ("traceId", JS.VStr (traceId id)) ])).

Definition contextValue (context : option RequestIdentifierContext) : JS.value :=
  match context with
  | Some c =>
      JS.VObj (JS.object [ ("requestIdentity", identityValue (requestIdentity c)) ])
  | None => JS.VUndefined
  end.

(** [async (event, context) =>
       ({context, requestIdentity: event.requestIdentity})]:
    a handler that reports what it was given. *)
Definition reportingHandler : Handler Event (option RequestIdentifierContext) JS.value :=
  λ event context,
    JS.Resolved
      (JS.VObj
         (JS.object
            [ ("context", contextValue context);
              ("requestIdentity",
               default JS.VUndefined (payload event !! "requestIdentity")) ])).

(** A handler whose response already carries headers of its own. *)
Definition stubbornHandler : Handler Event (option RequestIdentifierContext) JS.value :=
  λ _ _,
    JS.Resolved
      (JS.VObj
         (JS.object
            [ ("statusCode", JS.VNum 200);
              ("headers",
               JS.VObj
                 (JS.object
                    [ ("trace-id", JS.VStr "mine");
                      ("content-type", JS.VStr "text/plain") ])) ])).

(** Another handler with the response of [stubbornHandler], over another
    context type. *)
Definition constantHandler : Handler Event (option unit) JS.value :=
  λ _ _, stubbornHandler emptyEvent None.

(** A handler that fails. *)
Definition failingHandler : Handler Event (option RequestIdentifierContext) JS.value :=
  λ _ _, JS.Rejected (JS.Thrown (JS.VStr "boom")).

(** ** The composition convention and further vocabulary *)

(** [Middleware] of the composition library: a function from the handler
    to wrap to the handler that wraps it. *)
Definition Middleware
    (TEvent TContext TResult TNextEvent TNextContext TNextResult : Type) : Type :=
  Handler TNextEvent TNextContext TNextResult → Handler TEvent TContext TResult.

(** The middleware at that type, for the invocation in which [uuidv4]
    writes [trace] and [span]: the function it returns has the event as
    its only parameter, so a context passed to it is dropped. *)
Definition asMiddleware {TContext TNextContext : Type} (trace span : list N)
  : Middleware Event (option TContext) JS.value
               Event (option TNextContext) JS.value :=
  λ next event _,
    _DefaultAPIGatewayProxyRequestIdentifyingMiddleware next trace span event.

Definition isLowerHexDigit (c : ascii) : bool :=
  let n := N_of_ascii c in
  ((48 <=? n) && (n <=? 57) || (97 <=? n) && (n <=? 102))%N.

Fixpoint countHyphens (s : string) : nat :=
  match s with
  | "" => 0
  | String c s' => (if Ascii.eqb c "-" then 1 else 0) + countHyphens s'
  end.

(** An event whose only identity header is [key]. *)
Definition onlyIdentityHeader (event : Event) (key v : string) : Prop :=
  headers event !! key = Some v ∧
  ∀ other, other ∈ identityKeys → other ≠ key → headers event !! other = None.

(** Two events with the same identity headers. *)
Definition sameIdentityHeaders (event1 event2 : Event) : Prop :=
  ∀ key, key ∈ identityKeys → headers event1 !! key = headers event2 !! key.

(** The event without its headers of empty value. *)
Definition dropEmptyHeaders (event : Event) : Event :=
  {| headers := filter (λ kv, kv.2 ≠ "") (headers event);
     payload := payload event |}.

(** A header that is missing or holds the empty string. *)
Definition absentOrEmpty (v : option string) : Prop :=
  v = None ∨ v = Some "".

(** [undefined] and [null]. *)
Definition nullish (v : JS.value) : Prop :=
  v = JS.VUndefined ∨ v = JS.VNull.

(** The headers of a response as the merge reads them: the properties
    of [result.headers || {}]. *)
Definition ownHeaders (r : JS.value) : gmap string JS.value :=
  match JS.get r "headers" with
  | JS.Resolved h => JS.spread (if JS.truthy h then h else JS.VObj ∅)
  | JS.Rejected _ => ∅
  end.

(** Numbers and booleans. *)
Definition plainPrimitive (v : JS.value) : Prop :=
  (∃ n, v = JS.VNum n) ∨ (∃ b, v = JS.VBool b).

Definition tracedEvent : Event :=
  {| headers := {[ "trace-id" := sampleHex ]}; payload := ∅ |}.

Definition b3Event : Event :=
  {| headers :=
       <[ "x-b3-spanid" := "00f067aa0ba902b7" ]>
         (<[ "x-b3-parentspanid" := "05e3ac9a4f6e3b90" ]>
            (<[ "x-b3-traceid" := sampleHex ]>
               (<[ "span-id" := "" ]> {[ "content-type" := "text/plain" ]})));
     payload := ∅ |}.

Definition plainEvent : Event :=
  {| headers :=
       <[ "correlation-id" := "c" ]>
         (<[ "parent-id" := "c" ]>
            (<[ "request-id" := "c" ]>
               (<[ "session-id" := "c" ]>
                  (<[ "span-id" := "c" ]> {[ "trace-id" := "c" ]}))));
     payload := ∅ |}.

Definition prefixedEvent : Event :=
  {| headers :=
       <[ "x-correlation-id" := "x" ]>
         (<[ "x-parent-id" := "x" ]>
            (<[ "x-request-id" := "x" ]>
               (<[ "x-session-id" := "x" ]>
                  (<[ "x-span-id" := "x" ]>
                     (<[ "x-trace-id" := "x" ]>
                        (<[ "trace-id" := "" ]> {[ "request-id" := "" ]}))))));
     payload := ∅ |}.

(** Handlers with responses that are no objects, and with an object
    that has no headers. *)
Definition silentHandler : Handler Event (option unit) JS.value :=
  λ _ _, JS.Resolved JS.VUndefined.
Definition numberHandler : Handler Event (option unit) JS.value :=
  λ _ _, JS.Resolved (JS.VNum 204).
Definition bareHandler : Handler Event (option unit) JS.value :=
  λ _ _, JS.Resolved (JS.VObj (JS.object [ ("statusCode", JS.VNum 200) ])).

(** ** The invocation with its effects *)













(** * Facts *)

(** ** Strings *)

Section StringFacts.
Implicit Types s t : string.

Lemma str_app_nil_l t : "" +:+ t = t.
Proof. reflexivity. Qed.

Lemma str_app_cons c s t : String c s +:+ t = String c (s +:+ t).
Proof. reflexivity. Qed.

Lemma str_length_app s t :
  String.length (s +:+ t) = String.length s + String.length t.
Proof.
  induction s as [|c s IH]; [done|].
  rewrite str_app_cons. cbn. by rewrite IH.
Qed.

Lemma str_app_nil_r s : s +:+ "" = s.
Proof.
  induction s as [|c s IH]; [done|]. by rewrite str_app_cons, IH.
Qed.

Lemma str_length_take n s :
  String.length (JS.take n s) = n `min` String.length s.
Proof.
  revert s; induction n as [|n IH]; intros [|c s]; cbn; try done.
  by rewrite IH.
Qed.

Lemma str_length_drop n s :
  String.length (JS.drop n s) = String.length s - n.
Proof. revert s; induction n as [|n IH]; intros [|c s]; cbn; auto. Qed.

Lemma str_take_all n s : String.length s ≤ n → JS.take n s = s.
Proof.
  revert s; induction n as [|n IH]; intros [|c s]; cbn; intros Hn;
    try done; try lia.
  rewrite IH; [done | lia].
Qed.

Lemma str_drop_drop n m s : JS.drop n (JS.drop m s) = JS.drop (m + n) s.
Proof.
  revert s; induction m as [|m IH]; intros s; cbn; [done|].
  destruct s as [|c s]; [by destruct n | apply IH].
Qed.

Lemma str_take_take_drop n m s :
  JS.take n s +:+ JS.take m (JS.drop n s) = JS.take (n + m) s.
Proof.
  revert s; induction n as [|n IH]; intros s; cbn.
  - by destruct m, s.
  - destruct s as [|c s]; cbn; [by destruct m|].
    by rewrite str_app_cons, IH.
Qed.

(** Adjacent slices concatenate. *)
Lemma slice_slice s a b c :
  a ≤ b → b ≤ c → JS.slice s a b +:+ JS.slice s b c = JS.slice s a c.
Proof.
  intros Hab Hbc. unfold JS.slice.
  replace (JS.drop b s) with (JS.drop (b - a) (JS.drop a s))
    by (rewrite str_drop_drop; f_equal; lia).
  rewrite str_take_take_drop. f_equal; lia.
Qed.

Lemma slice_all s n : String.length s ≤ n → JS.slice s 0 n = s.
Proof. intros Hn. unfold JS.slice. cbn. apply str_take_all. lia. Qed.

Lemma length_slice s a b :
  b ≤ String.length s → String.length (JS.slice s a b) = b - a.
Proof.
  intros Hb. unfold JS.slice. rewrite str_length_take, str_length_drop. lia.
Qed.

Lemma join_cons s (strs : list string) :
  JS.join (s :: strs) = s +:+ JS.join strs.
Proof. destruct strs; cbn; [by rewrite str_app_nil_r | done]. Qed.

(** Hyphen stripping distributes over concatenation, and leaves
    hexadecimal strings alone. *)
Lemma stripHyphens_app s t :
  stripHyphens (s +:+ t) = stripHyphens s +:+ stripHyphens t.
Proof.
  induction s as [|c s IH]; [done|].
  rewrite str_app_cons. cbn. destruct (Ascii.eqb c "-"); [done|].
  by rewrite str_app_cons, IH.
Qed.

Lemma isHexDigit_not_hyphen c : isHexDigit c = true → Ascii.eqb c "-" = false.
Proof.
  intros Hc. apply Ascii.eqb_neq. intros ->. by vm_compute in Hc.
Qed.

Lemma stripHyphens_hex s : allChars isHexDigit s = true → stripHyphens s = s.
Proof.
  induction s as [|c s IH]; [done|]. cbn.
  intros [Hc Hs]%andb_prop.
  by rewrite (isHexDigit_not_hyphen c Hc), IH.
Qed.
End StringFacts.

(** ** Encoding layer *)

Section EncodingFacts.

(** Every entry of the table is the two lowercase hexadecimal digits of
    its index. *)
Lemma byteToHex_spec (byte : N) :
  (byte < 256)%N →
  byteToHex !! N.to_nat byte
  = Some (String (JS.hexDigit (byte / 16)) (String (JS.hexDigit (byte mod 16)) "")).
Proof.
  intros Hb.
  assert (Hall : forallb (λ i,
            bool_decide (byteToHex !! i
              = Some (String (JS.hexDigit (N.of_nat i / 16))
                        (String (JS.hexDigit (N.of_nat i mod 16)) ""))))
            (seq 0 256) = true) by (vm_compute; reflexivity).
  rewrite forallb_forall in Hall.
  assert (Hin : In (N.to_nat byte) (seq 0 256)) by (apply in_seq; lia).
  specialize (Hall _ Hin). rewrite N2Nat.id in Hall.
  by apply bool_decide_eq_true in Hall.
Qed.

Lemma byteToHex_length (byte : N) :
  (byte < 256)%N →
  String.length (default "" (byteToHex !! N.to_nat byte)) = 2.
Proof. intros Hb. by rewrite byteToHex_spec. Qed.

Lemma bytesToHexString_length (bytes : list N) :
  Forall (λ byte, (byte < 256)%N) bytes →
  String.length (bytesToHexString bytes) = 2 * length bytes.
Proof.
  unfold bytesToHexString.
  induction 1 as [|byte bytes Hb _ IH]; [done|].
  rewrite fmap_cons, join_cons, str_length_app, IH, byteToHex_length by done.
  cbn. lia.
Qed.

Lemma uuidBuffer_hex_length (bytes : list N) :
  uuidBuffer bytes → String.length (bytesToHexString bytes) = 32.
Proof. intros [Hlen Hall]. rewrite bytesToHexString_length, Hlen; done. Qed.

Lemma uuidBuffer_span_length (bytes : list N) :
  uuidBuffer bytes → String.length (bytesToHexString (firstn 8 bytes)) = 16.
Proof.
  intros [Hlen Hall].
  rewrite bytesToHexString_length by by apply Forall_take.
  rewrite length_take, Hlen. done.
Qed.

(** The shape of a formatted identifier, whatever the input. *)
Lemma formatHexAsUUID_unfold (h : string) :
  formatHexAsUUID h
  = JS.slice h 0 8 +:+ "-" +:+ JS.slice h 8 12 +:+ "-" +:+ JS.slice h 12 16
    +:+ "-" +:+ JS.slice h 16 24 +:+ "-" +:+ JS.slice h 24 36.
Proof.
  unfold formatHexAsUUID. rewrite !join_cons. cbn. by rewrite str_app_nil_r.
Qed.

Lemma formatHexAsUUID_nonempty (h : string) : formatHexAsUUID h ≠ "".
Proof.
  intros Heq. apply (f_equal String.length) in Heq.
  rewrite formatHexAsUUID_unfold, !str_length_app in Heq. cbn in Heq. lia.
Qed.

(** Stripping every hyphen of a formatted identifier gives back the
    first 36 characters of the input. *)
Lemma stripHyphens_formatHexAsUUID (h : string) :
  stripHyphens (formatHexAsUUID h) = stripHyphens (JS.slice h 0 36).
Proof.
  rewrite formatHexAsUUID_unfold, !stripHyphens_app. cbn [stripHyphens].
  change (if Ascii.eqb "-" "-" then "" else "-") with "".
  rewrite !str_app_nil_l, <- !stripHyphens_app.
  by rewrite !slice_slice by lia.
Qed.

(** Slices of a hexadecimal string are hexadecimal. *)
Lemma allChars_take P n s : allChars P s = true → allChars P (JS.take n s) = true.
Proof.
  revert s; induction n as [|n IH]; intros [|c s]; cbn; try done.
  intros [Hc Hs]%andb_prop. by rewrite Hc, IH.
Qed.

Lemma allChars_drop P n s : allChars P s = true → allChars P (JS.drop n s) = true.
Proof.
  revert s; induction n as [|n IH]; intros [|c s]; cbn; try done.
  intros [Hc Hs]%andb_prop. by apply IH.
Qed.

Lemma allChars_slice P s a b : allChars P s = true → allChars P (JS.slice s a b) = true.
Proof. intros Hs. by apply allChars_take, allChars_drop. Qed.

(** A hexadecimal string is one group, and a hyphen after it closes
    the group. *)
Lemma groups_hex s : allChars isHexDigit s = true → groups s = [s].
Proof.
  induction s as [|c s IH]; [done|]. cbn.
  intros [Hc Hs]%andb_prop.
  by rewrite (isHexDigit_not_hyphen c Hc), IH.
Qed.

Lemma groups_hex_hyphen s t :
  allChars isHexDigit s = true → groups (s +:+ "-" +:+ t) = s :: groups t.
Proof.
  induction s as [|c s IH]; [done|]. cbn.
  intros [Hc Hs]%andb_prop.
  by rewrite str_app_cons; cbn; rewrite (isHexDigit_not_hyphen c Hc), IH.
Qed.

(** On every 32-character hexadecimal string the groups have 8, 4, 4, 8
    and 8 characters. *)
Lemma formatHexAsUUID_group_lengths (h : string) :
  isHex32 h →
  String.length <$> groups (formatHexAsUUID h) = [8; 4; 4; 8; 8].
Proof.
  intros [Hlen Hhex].
  rewrite formatHexAsUUID_unfold.
  rewrite !groups_hex_hyphen, groups_hex by by apply allChars_slice.
  rewrite !fmap_cons, !length_slice by lia.
  unfold JS.slice. by rewrite str_length_take, str_length_drop, Hlen.
Qed.
End EncodingFacts.

(** ** Resolution layer *)

Section ResolutionFacts.
Implicit Types (a : option string) (b : string) (event : Event).

Lemma orElse_nonempty a b : b ≠ "" → a ||! b ≠ "".
Proof.
  intros Hb. unfold orElse. destruct a as [s|]; [|done].
  by destruct (String.eqb_spec s "").
Qed.

Lemma noIdentityHeaders_header event key :
  noIdentityHeaders event → key ∈ identityKeys → header event key = None.
Proof. intros Hno Hkey. by apply Hno. Qed.

(** The outbound headers, key by key. *)
Lemma identityHeaders_lookup (ctx : RequestIdentifierContext) (key : string) :
  identityHeaders ctx !! key = bundleValue (requestIdentity ctx) key.
Proof.
  unfold bundleValue.
  repeat case_decide;
    try (match goal with
         | H : key ∈ _ |- _ => set_unfold in H; destruct_or!; subst key
         end; reflexivity).
  unfold identityHeaders, JS.object; cbn [foldl fst snd app].
  repeat (rewrite lookup_insert_ne; [|intros <-; set_solver]).
  apply lookup_empty.
Qed.

Lemma bundleValue_is_Some (id : RequestIdentity) (key : string) :
  key ∈ identityKeys → is_Some (bundleValue id key).
Proof.
  intros Hkey. unfold identityKeys in Hkey.
  set_unfold in Hkey; destruct_or!; subst key; vm_compute; eauto.
Qed.

Lemma bundleValue_None (id : RequestIdentity) (key : string) :
  key ∉ identityKeys → bundleValue id key = None.
Proof.
  intros Hkey. unfold bundleValue, identityKeys in *.
  by rewrite !decide_False by (intros ?; apply Hkey; set_unfold; tauto).
Qed.
End ResolutionFacts.

(** * Properties of the specification *)

(** ** Encoding *)

(** C2. The specification has [formatHexAsUUID] cut a 32-character
    hexadecimal string into hyphen-joined groups of 8, 4, 4, 4 and 12
    characters. On the sample string, and on the encoding of the sample
    buffer, the function yields groups of 8, 4, 4, 8 and 8 characters
    instead: the fourth slice is taken from 16 to 24 and the fifth from
    24 on. No character is lost or reordered. *)
Theorem formatHexAsUUID_sample_groups :
  formatHexAsUUID sampleHex = "01234567-89ab-cdef-01234567-89abcdef" ∧
  String.length <$> groups (formatHexAsUUID sampleHex) = [8; 4; 4; 8; 8] ∧
  String.length <$> groups (formatHexAsUUID sampleHex) ≠ [8; 4; 4; 4; 12] ∧
  bytesToUuid sampleTrace = "00010203-0405-0607-08090a0b-0c0d0e0f" ∧
  String.length <$> groups (bytesToUuid sampleTrace) = [8; 4; 4; 8; 8] ∧
  stripHyphens (formatHexAsUUID sampleHex) = sampleHex.
Proof. repeat split; try reflexivity. by vm_compute. Qed.

(** C8. For every 32-character hexadecimal string [h],
    [convertMaybeHexStringToUuid] returns an identifier from which
    stripping all hyphens gives [h] back, and hyphenating that again
    gives the same identifier. *)
Theorem stripHyphens_convertMaybeHexStringToUuid (h : string) :
  isHex32 h →
  ∃ uuid,
    convertMaybeHexStringToUuid (Some h) = Some uuid ∧
    stripHyphens uuid = h ∧
    convertMaybeHexStringToUuid (Some (stripHyphens uuid)) = Some uuid.
Proof.
  intros [Hlen Hhex].
  assert (Hne : String.eqb h "" = false).
  { apply String.eqb_neq. intros ->. discriminate Hlen. }
  assert (Hstrip : stripHyphens (formatHexAsUUID h) = h).
  { rewrite stripHyphens_formatHexAsUUID, slice_all by lia.
    by apply stripHyphens_hex. }
  exists (formatHexAsUUID h). unfold convertMaybeHexStringToUuid.
  by rewrite Hstrip, Hne.
Qed.

Lemma stripHyphens_convertMaybeHexStringToUuid_witness :
  ∃ uuid,
    convertMaybeHexStringToUuid (Some sampleHex) = Some uuid ∧
    stripHyphens uuid = sampleHex ∧
    convertMaybeHexStringToUuid (Some (stripHyphens uuid)) = Some uuid.
Proof.
  apply (stripHyphens_convertMaybeHexStringToUuid sampleHex).
  split; reflexivity.
Defined.

(** ** Resolution *)

(** C3. When the event carries none of the identity headers, the
    correlation, request and session identifiers are all the hyphenated
    form of the trace buffer, there is no parent identifier, the span
    identifier is the hexadecimal form of the first eight bytes of the
    span buffer, the trace identifier is the hexadecimal form of the whole
    trace buffer, and the last two differ. *)
Theorem resolve_without_identity_headers (trace span : list N) (event : Event) :
  uuidBuffer trace → uuidBuffer span → noIdentityHeaders event →
  let id := requestIdentity (requestIdentifierContext trace span event) in
  correlationId id = bytesToUuid trace ∧
  requestId id = bytesToUuid trace ∧
  sessionId id = bytesToUuid trace ∧
  parentId id = None ∧
  spanId id = bytesToHexString (firstn 8 span) ∧
  traceId id = bytesToHexString trace ∧
  spanId id ≠ "" ∧ traceId id ≠ "" ∧
  spanId id ≠ traceId id.
Proof.
  intros Htrace Hspan Hno id.
  assert (Hid : id = {| correlationId := bytesToUuid trace;
                        parentId := None;
                        requestId := bytesToUuid trace;
                        sessionId := bytesToUuid trace;
                        spanId := bytesToHexString (firstn 8 span);
                        traceId := bytesToHexString trace |}).
  { subst id. unfold requestIdentifierContext, inboundCorrelationId,
      inboundParentId, inboundRequestId, inboundSessionId, inboundSpanId,
      inboundTraceId.
    rewrite !(noIdentityHeaders_header event) by
      (try done; unfold identityKeys; set_unfold; tauto).
    reflexivity. }
  rewrite Hid. cbn.
  pose proof (uuidBuffer_hex_length trace Htrace) as Hlt.
  pose proof (uuidBuffer_span_length span Hspan) as Hls.
  repeat split; try done.
  - intros Heq. rewrite Heq in Hls. discriminate Hls.
  - intros Heq. rewrite Heq in Hlt. discriminate Hlt.
  - intros Heq. rewrite Heq, Hlt in Hls. discriminate Hls.
Qed.

Lemma sampleTrace_uuidBuffer : uuidBuffer sampleTrace.
Proof. split; [reflexivity | repeat constructor]. Defined.

Lemma sampleSpan_uuidBuffer : uuidBuffer sampleSpan.
Proof. split; [reflexivity | repeat constructor]. Defined.

Lemma emptyEvent_noIdentityHeaders : noIdentityHeaders emptyEvent.
Proof. intros key _. apply lookup_empty. Defined.

Lemma resolve_without_identity_headers_witness :
  let id := requestIdentity (requestIdentifierContext sampleTrace sampleSpan emptyEvent) in
  correlationId id = bytesToUuid sampleTrace ∧
  requestId id = bytesToUuid sampleTrace ∧
  sessionId id = bytesToUuid sampleTrace ∧
  parentId id = None ∧
  spanId id = bytesToHexString (firstn 8 sampleSpan) ∧
  traceId id = bytesToHexString sampleTrace ∧
  spanId id ≠ "" ∧ traceId id ≠ "" ∧
  spanId id ≠ traceId id.
Proof.
  apply (resolve_without_identity_headers sampleTrace sampleSpan emptyEvent).
  - exact sampleTrace_uuidBuffer.
  - exact sampleSpan_uuidBuffer.
  - exact emptyEvent_noIdentityHeaders.
Defined.

(** C4. When [correlation-id] is the only identity header and holds
    ["11111111-1111-1111-1111-111111111111"], the request and session
    identifiers are that value, and the trace identifier is that value
    without its first hyphen, as [String.prototype.replace] with a string
    pattern leaves every later hyphen in place. *)
Theorem resolve_only_correlation_id (trace span : list N) (event : Event) :
  onlyCorrelationId event "11111111-1111-1111-1111-111111111111" →
  let id := requestIdentity (requestIdentifierContext trace span event) in
  correlationId id = "11111111-1111-1111-1111-111111111111" ∧
  requestId id = "11111111-1111-1111-1111-111111111111" ∧
  sessionId id = "11111111-1111-1111-1111-111111111111" ∧
  traceId id = "111111111111-1111-1111-111111111111".
Proof.
  intros [Hc Hothers] id. subst id.
  unfold requestIdentifierContext, inboundCorrelationId, inboundParentId,
    inboundRequestId, inboundSessionId, inboundSpanId, inboundTraceId, header.
  rewrite Hc.
  rewrite !Hothers by (first [done | unfold identityKeys; set_unfold; tauto]).
  repeat split; reflexivity.
Qed.

Lemma correlatedEvent_onlyCorrelationId :
  onlyCorrelationId correlatedEvent "11111111-1111-1111-1111-111111111111".
Proof.
  split; [reflexivity|].
  intros key _ Hne. by apply lookup_singleton_ne.
Defined.

Lemma resolve_only_correlation_id_witness :
  let id := requestIdentity (requestIdentifierContext sampleTrace sampleSpan correlatedEvent) in
  correlationId id = "11111111-1111-1111-1111-111111111111" ∧
  requestId id = "11111111-1111-1111-1111-111111111111" ∧
  sessionId id = "11111111-1111-1111-1111-111111111111" ∧
  traceId id = "111111111111-1111-1111-111111111111".
Proof.
  apply (resolve_only_correlation_id sampleTrace sampleSpan correlatedEvent).
  exact correlatedEvent_onlyCorrelationId.
Defined.

(** C5. Whatever the inbound headers, once the two buffers hold sixteen
    bytes each, the correlation, request, session, span and trace
    identifiers of the resolved bundle are non-empty strings, and the
    parent identifier is either absent or a non-empty string. *)
Theorem resolved_fields_nonempty (trace span : list N) (event : Event) :
  uuidBuffer trace → uuidBuffer span →
  let id := requestIdentity (requestIdentifierContext trace span event) in
  correlationId id ≠ "" ∧
  requestId id ≠ "" ∧
  sessionId id ≠ "" ∧
  spanId id ≠ "" ∧
  traceId id ≠ "" ∧
  (parentId id = None ∨ ∃ p, parentId id = Some p ∧ p ≠ "").
Proof.
  intros Htrace Hspan id. subst id.
  pose proof (uuidBuffer_hex_length trace Htrace) as Hlt.
  pose proof (uuidBuffer_span_length span Hspan) as Hls.
  unfold requestIdentifierContext.
  cbn [requestIdentity correlationId requestId sessionId spanId traceId parentId].
  repeat split.
  - apply orElse_nonempty, formatHexAsUUID_nonempty.
  - apply orElse_nonempty, formatHexAsUUID_nonempty.
  - apply orElse_nonempty, formatHexAsUUID_nonempty.
  - apply orElse_nonempty. intros Heq. rewrite Heq in Hls. discriminate Hls.
  - apply orElse_nonempty. intros Heq. rewrite Heq in Hlt. discriminate Hlt.
  - destruct (inboundParentId event) as [p|]; [|by left].
    destruct (String.eqb_spec p ""); [by left | right; eauto].
Qed.

Lemma resolved_fields_nonempty_witness :
  let id := requestIdentity (requestIdentifierContext sampleTrace sampleSpan correlatedEvent) in
  correlationId id ≠ "" ∧
  requestId id ≠ "" ∧
  sessionId id ≠ "" ∧
  spanId id ≠ "" ∧
  traceId id ≠ "" ∧
  (parentId id = None ∨ ∃ p, parentId id = Some p ∧ p ≠ "").
Proof.
  apply (resolved_fields_nonempty sampleTrace sampleSpan correlatedEvent).
  - exact sampleTrace_uuidBuffer.
  - exact sampleSpan_uuidBuffer.
Defined.

(** C6. For every invocation the outbound header set holds each bundle
    field under its plain key and under its [x-] key with the same value,
    and the parent, span and trace identifiers also under their [x-b3-]
    key with that value. An absent parent identifier is written as
    [undefined] under its three keys. *)
Theorem identityHeaders_synonyms (trace span : list N) (event : Event) :
  let ctx := requestIdentifierContext trace span event in
  let id := requestIdentity ctx in
  let out := identityHeaders ctx in
  (out !! "correlation-id" = Some (JS.VStr (correlationId id)) ∧
   out !! "x-correlation-id" = Some (JS.VStr (correlationId id))) ∧
  (out !! "parent-id" = Some (ofOption (parentId id)) ∧
   out !! "x-parent-id" = Some (ofOption (parentId id)) ∧
   out !! "x-b3-parentspanid" = Some (ofOption (parentId id))) ∧
  (out !! "request-id" = Some (JS.VStr (requestId id)) ∧
   out !! "x-request-id" = Some (JS.VStr (requestId id))) ∧
  (out !! "session-id" = Some (JS.VStr (sessionId id)) ∧
   out !! "x-session-id" = Some (JS.VStr (sessionId id))) ∧
  (out !! "span-id" = Some (JS.VStr (spanId id)) ∧
   out !! "x-span-id" = Some (JS.VStr (spanId id)) ∧
   out !! "x-b3-spanid" = Some (JS.VStr (spanId id))) ∧
  (out !! "trace-id" = Some (JS.VStr (traceId id)) ∧
   out !! "x-trace-id" = Some (JS.VStr (traceId id)) ∧
   out !! "x-b3-traceid" = Some (JS.VStr (traceId id))).
Proof.
  intros ctx id out. subst out id. generalize ctx as c. intros c.
  repeat split; reflexivity.
Qed.

(** ** Wrapping *)

Section WrappingFacts.
Context {TContext : Type}.
Implicit Types (next : Handler Event (option TContext) JS.value).

(** The wrapped handler is called with the event it was given and no
    second argument. *)
Remark next_called_with_event_only next trace span event :
  _DefaultAPIGatewayProxyRequestIdentifyingMiddleware next trace span event
  = (result ← await next event None;
     mergeHeaders result
       (identityHeaders (requestIdentifierContext trace span event))).
Proof. reflexivity. Qed.

(** The merge on a response that is an object. *)
Lemma mergeHeaders_object (response out : gmap string JS.value) :
  mergeHeaders (JS.VObj response) out
  = JS.Resolved
      (JS.VObj
         (<["headers" :=
              JS.VObj
                (out ∪ JS.spread
                         (if JS.truthy (default JS.VUndefined (response !! "headers"))
                          then default JS.VUndefined (response !! "headers")
                          else JS.VObj ∅))]> response)).
Proof. reflexivity. Qed.

(** A response without a usable value leaves nothing to merge into. *)
Lemma mergeHeaders_undefined (out : gmap string JS.value) :
  mergeHeaders JS.VUndefined out = JS.Rejected JS.TypeError.
Proof. reflexivity. Qed.
End WrappingFacts.

(** C7. When the wrapped handler returns a response object, the
    middleware returns that object with its [headers] replaced by a merged
    map in which every identity key holds the value of the resolved
    bundle, whatever the handler had put there; every other header of the
    handler keeps its value, and so does every field of the response other
    than [headers]. *)
Theorem response_identity_headers_overwrite {TContext : Type}
    (next : Handler Event (option TContext) JS.value)
    (trace span : list N) (event : Event) (response : gmap string JS.value) :
  next event None = JS.Resolved (JS.VObj response) →
  let id := requestIdentity (requestIdentifierContext trace span event) in
  ∃ merged : gmap string JS.value,
    _DefaultAPIGatewayProxyRequestIdentifyingMiddleware next trace span event
    = JS.Resolved (JS.VObj (<["headers" := JS.VObj merged]> response)) ∧
    (∀ key, key ∈ identityKeys →
            is_Some (bundleValue id key) ∧ merged !! key = bundleValue id key) ∧
    (∀ own key, response !! "headers" = Some (JS.VObj own) →
                key ∉ identityKeys → merged !! key = own !! key) ∧
    (∀ field, field ≠ "headers" →
              <["headers" := JS.VObj merged]> response !! field = response !! field).
Proof.
  intros Hnext id.
  rewrite next_called_with_event_only, Hnext. unfold JS.await.
  rewrite mergeHeaders_object.
  eexists. split; [reflexivity|]. split; [|split].
  - intros key Hkey.
    destruct (bundleValue_is_Some id key Hkey) as [v Hv].
    split; [by eexists|].
    rewrite Hv. apply lookup_union_Some_l.
    rewrite <- Hv. apply identityHeaders_lookup.
  - intros own key Hown Hkey. rewrite Hown.
    change (JS.spread _) with own.
    apply lookup_union_r.
    etrans; [apply identityHeaders_lookup | by apply bundleValue_None].
  - intros field Hfield. by apply lookup_insert_ne.
Qed.

Lemma response_identity_headers_overwrite_witness :
  let id := requestIdentity (requestIdentifierContext sampleTrace sampleSpan correlatedEvent) in
  let response :=
    JS.object
      [ ("statusCode", JS.VNum 200);
        ("headers",
         JS.VObj
           (JS.object
              [ ("trace-id", JS.VStr "mine");
                ("content-type", JS.VStr "text/plain") ])) ] in
  ∃ merged : gmap string JS.value,
    _DefaultAPIGatewayProxyRequestIdentifyingMiddleware
      stubbornHandler sampleTrace sampleSpan correlatedEvent
    = JS.Resolved (JS.VObj (<["headers" := JS.VObj merged]> response)) ∧
    (∀ key, key ∈ identityKeys →
            is_Some (bundleValue id key) ∧ merged !! key = bundleValue id key) ∧
    (∀ own key, response !! "headers" = Some (JS.VObj own) →
                key ∉ identityKeys → merged !! key = own !! key) ∧
    (∀ field, field ≠ "headers" →
              <["headers" := JS.VObj merged]> response !! field = response !! field).
Proof.
  apply (response_identity_headers_overwrite
           stubbornHandler sampleTrace sampleSpan correlatedEvent).
  reflexivity.
Defined.

(** C9. When the call of the wrapped handler fails, the middleware fails
    with the very same failure: nothing is caught, wrapped or replaced by
    a response. *)
Theorem handler_failure_propagates {TContext : Type}
    (next : Handler Event (option TContext) JS.value)
    (trace span : list N) (event : Event) (failure : JS.Error) :
  next event None = JS.Rejected failure →
  _DefaultAPIGatewayProxyRequestIdentifyingMiddleware next trace span event
  = JS.Rejected failure.
Proof.
  intros Hnext. unfold _DefaultAPIGatewayProxyRequestIdentifyingMiddleware.
  by rewrite Hnext.
Qed.

Lemma handler_failure_propagates_witness :
  _DefaultAPIGatewayProxyRequestIdentifyingMiddleware
    failingHandler sampleTrace sampleSpan correlatedEvent
  = JS.Rejected (JS.Thrown (JS.VStr "boom")).
Proof.
  apply (handler_failure_propagates
           failingHandler sampleTrace sampleSpan correlatedEvent).
  reflexivity.
Defined.




(** C1. The specification has the wrapped handler receive the resolved
    bundle under [requestIdentity] next to the original event. A handler
    that reports its context and the [requestIdentity] field of its event
    shows, for every invocation, that the context is [undefined] and that
    the event is the inbound one with nothing added, while the bundle that
    was resolved would have made a context that is an object. *)
Theorem handler_receives_no_requestIdentity
    (trace span : list N) (event : Event) :
  ∃ response : gmap string JS.value,
    _DefaultAPIGatewayProxyRequestIdentifyingMiddleware
      reportingHandler trace span event
    = JS.Resolved (JS.VObj response) ∧
    response !! "context" = Some JS.VUndefined ∧
    response !! "requestIdentity"
    = Some (default JS.VUndefined (payload event !! "requestIdentity")) ∧
    contextValue (Some (requestIdentifierContext trace span event))
    ≠ JS.VUndefined.
Proof.
  eexists. split; [reflexivity|].
  rewrite !lookup_insert_ne by done.
  repeat split; try reflexivity. discriminate.
Qed.

(** * Further properties of the code *)

(** ** Encoding *)

Section EncodingMore.
Implicit Types (s t : string) (bytes : list N).

Lemma str_app_assoc s t u : (s +:+ t) +:+ u = s +:+ t +:+ u.
Proof.
  induction s as [|c s IH]; [done|]. by rewrite !str_app_cons, IH.
Qed.

Lemma byteToHex_length_256 : length byteToHex = 256.
Proof. reflexivity. Qed.

Lemma bytesToHexString_cons (byte : N) bytes :
  bytesToHexString (byte :: bytes)
  = default "" (byteToHex !! N.to_nat byte) +:+ bytesToHexString bytes.
Proof. unfold bytesToHexString. by rewrite fmap_cons, join_cons. Qed.

Lemma byteToHex_out_of_range (byte : N) :
  (256 ≤ byte)%N → byteToHex !! N.to_nat byte = None.
Proof.
  intros Hb. apply lookup_ge_None_2. rewrite byteToHex_length_256. lia.
Qed.

Lemma hexDigit_lower (d : N) : isLowerHexDigit (JS.hexDigit d) = true.
Proof.
  unfold JS.hexDigit. generalize (N.to_nat d) as n. intros n.
  do 16 (destruct n as [|n]; [reflexivity|]). reflexivity.
Qed.

Lemma isLowerHexDigit_isHexDigit (c : ascii) :
  isLowerHexDigit c = true → isHexDigit c = true.
Proof. unfold isLowerHexDigit, isHexDigit. cbn. by intros ->. Qed.

Lemma allChars_app P s t :
  allChars P (s +:+ t) = allChars P s && allChars P t.
Proof.
  induction s as [|c s IH]; [done|].
  rewrite str_app_cons. cbn. by rewrite IH, andb_assoc.
Qed.

Lemma allChars_impl (P Q : ascii → bool) s :
  (∀ c, P c = true → Q c = true) → allChars P s = true → allChars Q s = true.
Proof.
  intros HPQ. induction s as [|c s IH]; [done|]. cbn.
  intros [Hc Hs]%andb_prop. by rewrite (HPQ c Hc), IH.
Qed.

Lemma byteToHex_entry_lower (byte : N) :
  allChars isLowerHexDigit (default "" (byteToHex !! N.to_nat byte)) = true.
Proof.
  destruct (decide (byte < 256)%N) as [Hb|Hb].
  - rewrite byteToHex_spec by done. cbn. by rewrite !hexDigit_lower.
  - rewrite byteToHex_out_of_range by lia. done.
Qed.

Lemma bytesToHexString_lower bytes :
  allChars isLowerHexDigit (bytesToHexString bytes) = true.
Proof.
  induction bytes as [|byte bytes IH]; [done|].
  by rewrite bytesToHexString_cons, allChars_app, byteToHex_entry_lower, IH.
Qed.

Lemma bytesToHexString_hex bytes :
  allChars isHexDigit (bytesToHexString bytes) = true.
Proof.
  eapply allChars_impl; [apply isLowerHexDigit_isHexDigit|].
  apply bytesToHexString_lower.
Qed.

Lemma hexDigit_inj (x y : N) :
  (x < 16)%N → (y < 16)%N → JS.hexDigit x = JS.hexDigit y → x = y.
Proof.
  intros Hx Hy Heq.
  assert (Hall : forallb (λ i, forallb (λ j,
            implb (Ascii.eqb (JS.hexDigit (N.of_nat i)) (JS.hexDigit (N.of_nat j)))
                  (Nat.eqb i j)) (seq 0 16)) (seq 0 16) = true)
    by (vm_compute; reflexivity).
  rewrite forallb_forall in Hall.
  specialize (Hall (N.to_nat x)). rewrite forallb_forall in Hall.
  specialize (Hall ltac:(apply in_seq; lia) (N.to_nat y) ltac:(apply in_seq; lia)).
  rewrite !N2Nat.id, Heq, Ascii.eqb_refl in Hall. cbn in Hall.
  apply Nat.eqb_eq in Hall. lia.
Qed.

Lemma byte_of_digits (x y : N) :
  (x < 256)%N → (y < 256)%N →
  JS.hexDigit (x / 16) = JS.hexDigit (y / 16) →
  JS.hexDigit (x mod 16) = JS.hexDigit (y mod 16) → x = y.
Proof.
  intros Hx Hy Hhi Hlo.
  apply hexDigit_inj in Hhi; [|apply N.Div0.div_lt_upper_bound; lia..].
  apply hexDigit_inj in Hlo; [|apply N.mod_lt; lia..].
  rewrite (N.div_mod x 16), (N.div_mod y 16) by lia. by rewrite Hhi, Hlo.
Qed.

Lemma slice_length_general s a b :
  String.length (JS.slice s a b) = (b - a) `min` (String.length s - a).
Proof. unfold JS.slice. by rewrite str_length_take, str_length_drop. Qed.

Lemma str_take_take n m s : JS.take n (JS.take m s) = JS.take (n `min` m) s.
Proof.
  revert m s; induction n as [|n IH]; intros [|m] [|c s]; cbn; try done.
  by rewrite IH.
Qed.

Lemma str_drop_take n m s : JS.drop n (JS.take m s) = JS.take (m - n) (JS.drop n s).
Proof.
  revert m s; induction n as [|n IH]; intros m s.
  - cbn. by rewrite Nat.sub_0_r.
  - destruct m as [|m], s as [|c s]; cbn; try done.
    by destruct (m - n).
Qed.

Lemma slice_take s n a b : b ≤ n → JS.slice (JS.take n s) a b = JS.slice s a b.
Proof.
  intros Hb. unfold JS.slice. rewrite str_drop_take, str_take_take.
  f_equal. lia.
Qed.

Lemma countHyphens_hex s : allChars isHexDigit s = true → countHyphens s = 0.
Proof.
  induction s as [|c s IH]; [done|]. cbn.
  intros [Hc Hs]%andb_prop. by rewrite (isHexDigit_not_hyphen c Hc), IH.
Qed.

Lemma replace_hyphen_cons (c : ascii) s :
  JS.replace "-" "" (String c s)
  = if Ascii.eqb c "-" then s else String c (JS.replace "-" "" s).
Proof.
  cbn [JS.replace String.prefix].
  destruct (ascii_dec "-" c) as [<-|Hne].
  - cbn. by destruct s.
  - assert (Ascii.eqb c "-" = false) as -> by (apply Ascii.eqb_neq; congruence).
    done.
Qed.

Lemma replace_first_hyphen s t :
  countHyphens s = 0 → JS.replace "-" "" (s +:+ "-" +:+ t) = s +:+ t.
Proof.
  induction s as [|c s IH]; intros Hs.
  - rewrite !str_app_nil_l. change ("-" +:+ t) with (String "-" t).
    by rewrite replace_hyphen_cons.
  - cbn in Hs.
    rewrite (str_app_cons c s ("-" +:+ t)), (str_app_cons c s t),
      replace_hyphen_cons.
    destruct (Ascii.eqb c "-"); [discriminate Hs|]. by rewrite IH.
Qed.

Lemma replace_no_hyphen s : countHyphens s = 0 → JS.replace "-" "" s = s.
Proof.
  induction s as [|c s IH]; intros Hs; [done|].
  cbn in Hs. rewrite replace_hyphen_cons.
  destruct (Ascii.eqb c "-"); [discriminate Hs|]. by rewrite IH.
Qed.

Lemma convertMaybeUuidToHexString_first_hyphen_aux s t :
  countHyphens s = 0 →
  convertMaybeUuidToHexString (Some (s +:+ "-" +:+ t)) = Some (s +:+ t).
Proof.
  intros Hs. unfold convertMaybeUuidToHexString.
  assert (String.eqb (s +:+ "-" +:+ t) "" = false) as ->.
  { apply String.eqb_neq. intros Heq. apply (f_equal String.length) in Heq.
    rewrite !str_length_app in Heq. cbn in Heq. lia. }
  by rewrite replace_first_hyphen.
Qed.
End EncodingMore.

(** X1. The lookup table has 256 entries; the entry of a byte is its
    two-digit lowercase hexadecimal form, high digit first, and there is
    no entry from 256 on. *)
Theorem byteToHex_table :
  length byteToHex = 256 ∧
  ∀ byte : N,
    byteToHex !! N.to_nat byte
    = if decide (byte < 256)%N
      then Some (String (JS.hexDigit (byte / 16))
                   (String (JS.hexDigit (byte mod 16)) ""))
      else None.
Proof.
  split; [reflexivity|]. intros byte. case_decide.
  - by apply byteToHex_spec.
  - apply byteToHex_out_of_range. lia.
Qed.

(** X2. Encoding a concatenation of byte sequences gives the
    concatenation of their encodings. *)
Theorem bytesToHexString_app (bytes1 bytes2 : list N) :
  bytesToHexString (bytes1 ++ bytes2)
  = bytesToHexString bytes1 +:+ bytesToHexString bytes2.
Proof.
  induction bytes1 as [|byte bytes1 IH]; [done|].
  rewrite <- app_comm_cons, !bytesToHexString_cons, IH.
  by rewrite str_app_assoc.
Qed.

(** X3. A number from 256 on has no entry in the table and leaves no
    trace in the encoding. *)
Theorem bytesToHexString_skips_out_of_range (before after : list N) (byte : N) :
  (256 ≤ byte)%N →
  bytesToHexString (before ++ byte :: after) = bytesToHexString (before ++ after).
Proof.
  intros Hb. induction before as [|b before IH].
  - cbn [app]. rewrite bytesToHexString_cons, byteToHex_out_of_range by done.
    apply str_app_nil_l.
  - rewrite <- !app_comm_cons, !bytesToHexString_cons. by rewrite IH.
Qed.

Lemma bytesToHexString_skips_out_of_range_witness :
  bytesToHexString ([1; 2] ++ 256 :: [3])%N = bytesToHexString ([1; 2] ++ [3])%N.
Proof.
  apply (bytesToHexString_skips_out_of_range [1; 2]%N [3]%N 256%N).
  vm_compute. discriminate.
Defined.

(** X4. For every array of non-negative integers, the encoding consists
    of lowercase hexadecimal digits only, two for each element below 256
    and none for the others. *)
Theorem bytesToHexString_digits (bytes : list N) :
  allChars isLowerHexDigit (bytesToHexString bytes) = true ∧
  String.length (bytesToHexString bytes)
  = 2 * length (filter (λ byte, (byte < 256)%N) bytes).
Proof.
  induction bytes as [|byte bytes [IHd IHl]]; [done|].
  rewrite bytesToHexString_cons, allChars_app, str_length_app, IHd, IHl.
  rewrite byteToHex_entry_lower. split; [done|].
  rewrite filter_cons. case_decide.
  - rewrite byteToHex_length by done. cbn [length]. lia.
  - rewrite byteToHex_out_of_range by lia. done.
Qed.

(** X5. On bytes the encoding loses nothing: two byte sequences with the
    same encoding are the same. *)
Theorem bytesToHexString_inj (bytes1 bytes2 : list N) :
  Forall (λ byte, (byte < 256)%N) bytes1 →
  Forall (λ byte, (byte < 256)%N) bytes2 →
  bytesToHexString bytes1 = bytesToHexString bytes2 →
  bytes1 = bytes2.
Proof.
  intros H1. revert bytes2.
  induction H1 as [|x bytes1 Hx _ IH]; intros bytes2 H2 Heq.
  - destruct H2 as [|y bytes2 Hy _]; [done|].
    rewrite bytesToHexString_cons, byteToHex_spec in Heq by done.
    discriminate Heq.
  - destruct H2 as [|y bytes2 Hy H2].
    + rewrite bytesToHexString_cons, byteToHex_spec in Heq by done.
      discriminate Heq.
    + rewrite !bytesToHexString_cons, !byteToHex_spec in Heq by done.
      cbn [default from_option id] in Heq.
      rewrite !str_app_cons, !str_app_nil_l in Heq.
      injection Heq as Hhi Hlo Hrest.
      f_equal; [by apply byte_of_digits | by apply IH].
Qed.

Lemma bytesToHexString_inj_witness : sampleTrace = sampleTrace.
Proof.
  apply (bytesToHexString_inj sampleTrace sampleTrace).
  - repeat constructor.
  - repeat constructor.
  - reflexivity.
Defined.

(** X6. An input of at most 32 characters is never refused: the result
    holds every character of the input, in order, and four hyphens
    more. *)
Theorem formatHexAsUUID_short_input (h : string) :
  String.length h ≤ 32 →
  String.length (formatHexAsUUID h) = 4 + String.length h ∧
  countHyphens (formatHexAsUUID h) = 4 + countHyphens h ∧
  stripHyphens (formatHexAsUUID h) = stripHyphens h.
Proof.
  intros Hlen. split; [|split].
  - rewrite formatHexAsUUID_unfold, !str_length_app, !slice_length_general.
    cbn [String.length]. lia.
  - assert (Happ : ∀ s t, countHyphens (s +:+ t) = countHyphens s + countHyphens t).
    { intros s t. induction s as [|c s IH]; [done|].
      rewrite str_app_cons. cbn. rewrite IH. lia. }
    rewrite <- (slice_all h 36) at 2 by lia.
    rewrite <- (slice_slice h 0 24 36), <- (slice_slice h 0 16 24),
      <- (slice_slice h 0 12 16), <- (slice_slice h 0 8 12) by lia.
    rewrite formatHexAsUUID_unfold, !Happ. cbn [countHyphens Ascii.eqb].
    cbn. lia.
  - rewrite stripHyphens_formatHexAsUUID. by rewrite slice_all by lia.
Qed.

Lemma formatHexAsUUID_short_input_witness :
  String.length (formatHexAsUUID "abc") = 4 + String.length "abc" ∧
  countHyphens (formatHexAsUUID "abc") = 4 + countHyphens "abc" ∧
  stripHyphens (formatHexAsUUID "abc") = stripHyphens "abc".
Proof. apply (formatHexAsUUID_short_input "abc"). vm_compute. lia. Defined.

(** X7. Characters from position 36 on never reach the result. *)
Theorem formatHexAsUUID_ignores_tail (h : string) :
  formatHexAsUUID h = formatHexAsUUID (JS.take 36 h).
Proof.
  rewrite !formatHexAsUUID_unfold. by rewrite !slice_take by lia.
Qed.

(** X8. [convertMaybeHexStringToUuid] gives nothing exactly for a missing
    or empty input, and what it gives otherwise is never the empty
    string. *)
Theorem convertMaybeHexStringToUuid_absent (hexString : option string) :
  (convertMaybeHexStringToUuid hexString = None
   ↔ hexString = None ∨ hexString = Some "") ∧
  convertMaybeHexStringToUuid hexString ≠ Some "".
Proof.
  unfold convertMaybeHexStringToUuid.
  destruct hexString as [h|]; [|by split; [split; auto|]].
  destruct (String.eqb_spec h "") as [->|Hne].
  - split; [split; auto | done].
  - split.
    + split; [done|]. intros [|]; congruence.
    + intros [=Heq]. by apply formatHexAsUUID_nonempty in Heq.
Qed.

(** X9. [convertMaybeUuidToHexString] removes the first hyphen of its
    input and nothing else: every later hyphen stays. *)
Theorem convertMaybeUuidToHexString_first_hyphen (before after : string) :
  countHyphens before = 0 →
  convertMaybeUuidToHexString (Some (before +:+ "-" +:+ after))
  = Some (before +:+ after).
Proof.
  apply convertMaybeUuidToHexString_first_hyphen_aux.
Qed.

Lemma convertMaybeUuidToHexString_first_hyphen_witness :
  convertMaybeUuidToHexString (Some ("01234567" +:+ "-" +:+ "89ab-cdef"))
  = Some ("01234567" +:+ "89ab-cdef").
Proof.
  apply (convertMaybeUuidToHexString_first_hyphen "01234567" "89ab-cdef").
  reflexivity.
Defined.

(** X10. A non-empty input without hyphens, such as an identifier that
    is already in hexadecimal form, is returned as it is. *)
Theorem convertMaybeUuidToHexString_no_hyphen (uuid : string) :
  uuid ≠ "" → countHyphens uuid = 0 →
  convertMaybeUuidToHexString (Some uuid) = Some uuid.
Proof.
  intros Hne Hfree. unfold convertMaybeUuidToHexString.
  apply String.eqb_neq in Hne. by rewrite Hne, replace_no_hyphen.
Qed.

Lemma convertMaybeUuidToHexString_no_hyphen_witness :
  convertMaybeUuidToHexString (Some sampleHex) = Some sampleHex.
Proof.
  apply (convertMaybeUuidToHexString_no_hyphen sampleHex);
    [discriminate | reflexivity].
Defined.

(** X11. [convertMaybeUuidToHexString] gives nothing exactly for a
    missing or empty input, and gives the empty string exactly for the
    input that is one hyphen. *)
Theorem convertMaybeUuidToHexString_absent (uuid : option string) :
  (convertMaybeUuidToHexString uuid = None ↔ uuid = None ∨ uuid = Some "") ∧
  (convertMaybeUuidToHexString uuid = Some "" ↔ uuid = Some "-").
Proof.
  unfold convertMaybeUuidToHexString.
  destruct uuid as [u|]; [|by split; split; auto].
  destruct (String.eqb_spec u "") as [->|Hne].
  - split; split; auto; discriminate.
  - split.
    + split; [done|]. intros [|]; congruence.
    + destruct u as [|c u]; [done|]. rewrite replace_hyphen_cons.
      destruct (Ascii.eqb_spec c "-") as [->|Hc].
      * split; intros [=]; by subst.
      * split; intros [=]. by subst.
Qed.

(** X12. The two conversions are not inverse to each other: a
    32-character hexadecimal string that is hyphenated and converted back
    comes out 35 characters long, with its own characters in order and
    three hyphens left among them. *)
Theorem hex_uuid_hex_keeps_hyphens (h : string) :
  isHex32 h →
  ∃ back,
    convertMaybeUuidToHexString (convertMaybeHexStringToUuid (Some h)) = Some back ∧
    String.length back = 35 ∧
    stripHyphens back = h ∧
    back ≠ h.
Proof.
  intros [Hlen Hhex].
  assert (Hne : String.eqb h "" = false).
  { apply String.eqb_neq. intros ->. discriminate Hlen. }
  unfold convertMaybeHexStringToUuid. rewrite Hne.
  rewrite formatHexAsUUID_unfold.
  rewrite convertMaybeUuidToHexString_first_hyphen_aux
    by by apply countHyphens_hex, allChars_slice.
  eexists. split; [reflexivity|].
  assert (Hl : String.length
                 (JS.slice h 0 8 +:+ JS.slice h 8 12 +:+ "-" +:+ JS.slice h 12 16
                  +:+ "-" +:+ JS.slice h 16 24 +:+ "-" +:+ JS.slice h 24 36) = 35).
  { rewrite !str_length_app, !slice_length_general, Hlen. reflexivity. }
  split; [done|]. split.
  - rewrite !stripHyphens_app. cbn [stripHyphens].
    change (if Ascii.eqb "-" "-" then "" else "-") with "".
    rewrite !str_app_nil_l, <- !stripHyphens_app.
    rewrite !slice_slice, slice_all by lia. by apply stripHyphens_hex.
  - intros Heq. rewrite Heq, Hlen in Hl. discriminate Hl.
Qed.

Lemma hex_uuid_hex_keeps_hyphens_witness :
  ∃ back,
    convertMaybeUuidToHexString (convertMaybeHexStringToUuid (Some sampleHex))
    = Some back ∧
    String.length back = 35 ∧
    stripHyphens back = sampleHex ∧
    back ≠ sampleHex.
Proof. apply (hex_uuid_hex_keeps_hyphens sampleHex). split; reflexivity. Defined.

(** X13. The identifier made of sixteen bytes has 36 characters, and
    without its hyphens it is the hexadecimal encoding of the bytes. *)
Theorem bytesToUuid_of_buffer (bytes : list N) :
  uuidBuffer bytes →
  String.length (bytesToUuid bytes) = 36 ∧
  stripHyphens (bytesToUuid bytes) = bytesToHexString bytes.
Proof.
  intros Hbuf. pose proof (uuidBuffer_hex_length bytes Hbuf) as Hlen.
  unfold bytesToUuid. split.
  - rewrite formatHexAsUUID_unfold, !str_length_app, !slice_length_general, Hlen.
    reflexivity.
  - rewrite stripHyphens_formatHexAsUUID, slice_all by lia.
    apply stripHyphens_hex, bytesToHexString_hex.
Qed.

Lemma bytesToUuid_of_buffer_witness :
  String.length (bytesToUuid sampleSpan) = 36 ∧
  stripHyphens (bytesToUuid sampleSpan) = bytesToHexString sampleSpan.
Proof.
  apply (bytesToUuid_of_buffer sampleSpan).
  split; [reflexivity | repeat constructor].
Defined.

(** ** Resolution *)

Section ResolutionMore.
Implicit Types (a b c : option string) (u v : string) (event : Event).

Lemma or_Some_l v b : v ≠ "" → Some v ||| b = Some v.
Proof. intros Hv%String.eqb_neq. unfold or. by rewrite Hv. Qed.

Lemma or_absent_l a b : absentOrEmpty a → a ||| b = b.
Proof. by intros [-> | ->]. Qed.

Lemma orElse_Some v u : v ≠ "" → Some v ||! u = v.
Proof. intros Hv%String.eqb_neq. unfold orElse. by rewrite Hv. Qed.

Lemma convertMaybeHexStringToUuid_Some v :
  v ≠ "" → convertMaybeHexStringToUuid (Some v) = Some (formatHexAsUUID v).
Proof.
  intros Hv%String.eqb_neq. unfold convertMaybeHexStringToUuid. by rewrite Hv.
Qed.

(** A chain that reaches a non-empty string never gets to its last
    operand. *)
Lemma orElse_or_Some a v u u' : v ≠ "" → a ||| Some v ||! u = a ||| Some v ||! u'.
Proof.
  intros Hv%String.eqb_neq. destruct a as [s|]; cbn; [|by rewrite Hv].
  destruct (String.eqb s "") eqn:Hs; cbn; by rewrite ?Hv, ?Hs.
Qed.

(** [||] associates. *)
Lemma or_assoc a b c : a ||| b ||| c = a ||| (b ||| c).
Proof.
  destruct a as [s|]; cbn; [|done].
  destruct (String.eqb s "") eqn:Hs; [done|]. cbn. by rewrite Hs.
Qed.

Lemma orElse_or a b u : a ||| b ||! u = a ||! (b ||! u).
Proof.
  destruct a as [s|]; cbn; [|done].
  destruct (String.eqb s "") eqn:Hs; [done|]. cbn. by rewrite Hs.
Qed.

(** Emptiness is absence, operand by operand. *)
Lemma or_norm_l a b : a ||| None ||| b = a ||| b.
Proof. destruct a as [s|]; cbn; [|done]. by destruct (String.eqb s "") eqn:Hs; cbn; rewrite ?Hs. Qed.

Lemma or_norm_r a b : a ||| (b ||| None) = a ||| b ||| None.
Proof.
  destruct a as [s|]; cbn; [|done].
  by destruct (String.eqb s "") eqn:Hs; cbn; rewrite ?Hs.
Qed.

Lemma orElse_norm a u : a ||| None ||! u = a ||! u.
Proof. destruct a as [s|]; cbn; [|done]. by destruct (String.eqb s "") eqn:Hs; cbn; rewrite ?Hs. Qed.

Lemma convertMaybeHexStringToUuid_norm a :
  convertMaybeHexStringToUuid (a ||| None) = convertMaybeHexStringToUuid a.
Proof. destruct a as [s|]; cbn; [|done]. by destruct (String.eqb s "") eqn:Hs; cbn; rewrite ?Hs. Qed.

Lemma convertMaybeUuidToHexString_norm a :
  convertMaybeUuidToHexString (a ||| None) = convertMaybeUuidToHexString a.
Proof. destruct a as [s|]; cbn; [|done]. by destruct (String.eqb s "") eqn:Hs; cbn; rewrite ?Hs. Qed.

Lemma header_dropEmptyHeaders event key :
  header (dropEmptyHeaders event) key = header event key ||| None.
Proof.
  unfold header, dropEmptyHeaders. cbn [headers].
  rewrite map_lookup_filter.
  destruct (headers event !! key) as [v|]; cbn; [|done].
  destruct (String.eqb_spec v "") as [->|Hv].
  - by rewrite option_guard_False by (cbn; auto).
  - by rewrite option_guard_True.
Qed.
End ResolutionMore.

(** X14. When a trace identifier is the only identity header, it is the
    trace identifier of the bundle as it came in; the correlation, request
    and session identifiers are its hyphenated form; nothing comes from
    the trace buffer. *)
Theorem resolve_only_trace_id (trace span : list N) (event : Event) (t : string) :
  onlyIdentityHeader event "trace-id" t → t ≠ "" →
  requestIdentity (requestIdentifierContext trace span event)
  = {| correlationId := formatHexAsUUID t;
       parentId := None;
       requestId := formatHexAsUUID t;
       sessionId := formatHexAsUUID t;
       spanId := bytesToHexString (firstn 8 span);
       traceId := t |}.
Proof.
  intros [Ht Hothers] Hne.
  unfold requestIdentifierContext, inboundCorrelationId, inboundParentId,
    inboundRequestId, inboundSessionId, inboundSpanId, inboundTraceId, header.
  rewrite Ht.
  rewrite !Hothers by (first [done | unfold identityKeys; set_unfold; tauto]).
  cbn [requestIdentity].
  pose proof (formatHexAsUUID_nonempty t) as Hf.
  change (None ||| None) with (@None string).
  change (None ||| ?x) with x.
  rewrite !(or_Some_l t) by done.
  rewrite convertMaybeHexStringToUuid_Some by done.
  change (None ||| ?x) with x.
  by rewrite !orElse_Some by done.
Qed.

Lemma resolve_only_trace_id_witness :
  requestIdentity (requestIdentifierContext sampleTrace sampleSpan tracedEvent)
  = {| correlationId := formatHexAsUUID sampleHex;
       parentId := None;
       requestId := formatHexAsUUID sampleHex;
       sessionId := formatHexAsUUID sampleHex;
       spanId := bytesToHexString (firstn 8 sampleSpan);
       traceId := sampleHex |}.
Proof.
  apply (resolve_only_trace_id sampleTrace sampleSpan tracedEvent sampleHex).
  - split; [reflexivity|]. intros other _ Hne. by apply lookup_singleton_ne.
  - discriminate.
Defined.

(** X15. A non-empty value under the plain name of a field is the value
    of that field in the bundle, whatever the other headers and the
    buffers hold. *)
Theorem plain_headers_pass_through (trace span : list N) (event : Event) (v : string) :
  v ≠ "" →
  let id := requestIdentity (requestIdentifierContext trace span event) in
  (header event "correlation-id" = Some v → correlationId id = v) ∧
  (header event "parent-id" = Some v → parentId id = Some v) ∧
  (header event "request-id" = Some v → requestId id = v) ∧
  (header event "session-id" = Some v → sessionId id = v) ∧
  (header event "span-id" = Some v → spanId id = v) ∧
  (header event "trace-id" = Some v → traceId id = v).
Proof.
  intros Hv id. subst id.
  unfold requestIdentifierContext, inboundCorrelationId, inboundParentId,
    inboundRequestId, inboundSessionId, inboundSpanId, inboundTraceId.
  cbn [requestIdentity correlationId parentId requestId sessionId spanId traceId].
  repeat split; intros ->;
    rewrite !(or_Some_l v) by done; rewrite ?orElse_Some by done; try done.
  apply String.eqb_neq in Hv. by rewrite Hv.
Qed.

Lemma plain_headers_pass_through_witness :
  let id := requestIdentity (requestIdentifierContext sampleTrace sampleSpan plainEvent) in
  correlationId id = "c" ∧ parentId id = Some "c" ∧ requestId id = "c" ∧
  sessionId id = "c" ∧ spanId id = "c" ∧ traceId id = "c".
Proof.
  destruct (plain_headers_pass_through sampleTrace sampleSpan plainEvent "c")
    as (Hc & Hp & Hr & Hs & Hsp & Ht); [discriminate|].
  intros id. split_and!;
    [apply Hc | apply Hp | apply Hr | apply Hs | apply Hsp | apply Ht];
    reflexivity.
Defined.

(** X16. When the plain name of a field is missing or empty, a non-empty
    value under its [x-] name is the value of that field. *)
Theorem prefixed_headers_are_second (trace span : list N) (event : Event) (v : string) :
  v ≠ "" →
  let id := requestIdentity (requestIdentifierContext trace span event) in
  (absentOrEmpty (header event "correlation-id") →
   header event "x-correlation-id" = Some v → correlationId id = v) ∧
  (absentOrEmpty (header event "parent-id") →
   header event "x-parent-id" = Some v → parentId id = Some v) ∧
  (absentOrEmpty (header event "request-id") →
   header event "x-request-id" = Some v → requestId id = v) ∧
  (absentOrEmpty (header event "session-id") →
   header event "x-session-id" = Some v → sessionId id = v) ∧
  (absentOrEmpty (header event "span-id") →
   header event "x-span-id" = Some v → spanId id = v) ∧
  (absentOrEmpty (header event "trace-id") →
   header event "x-trace-id" = Some v → traceId id = v).
Proof.
  intros Hv id. subst id.
  unfold requestIdentifierContext, inboundCorrelationId, inboundParentId,
    inboundRequestId, inboundSessionId, inboundSpanId, inboundTraceId.
  cbn [requestIdentity correlationId parentId requestId sessionId spanId traceId].
  repeat split; intros Habs ->;
    rewrite (or_absent_l _ _ Habs);
    rewrite !(or_Some_l v) by done; rewrite ?orElse_Some by done; try done.
  apply String.eqb_neq in Hv. by rewrite Hv.
Qed.

Lemma prefixed_headers_are_second_witness :
  let id := requestIdentity (requestIdentifierContext sampleTrace sampleSpan prefixedEvent) in
  correlationId id = "x" ∧ parentId id = Some "x" ∧ requestId id = "x" ∧
  sessionId id = "x" ∧ spanId id = "x" ∧ traceId id = "x".
Proof.
  destruct (prefixed_headers_are_second sampleTrace sampleSpan prefixedEvent "x")
    as (Hc & Hp & Hr & Hs & Hsp & Ht); [discriminate|].
  intros id. split_and!;
    [apply Hc | apply Hp | apply Hr | apply Hs | apply Hsp | apply Ht];
    first [reflexivity | by left | by right].
Defined.

(** X17. When both the plain and the [x-] name of the parent, span or
    trace identifier are missing or empty, a non-empty value under the
    [x-b3-] name is the value of that field. *)
Theorem b3_headers_are_third (trace span : list N) (event : Event) (v : string) :
  v ≠ "" →
  let id := requestIdentity (requestIdentifierContext trace span event) in
  (absentOrEmpty (header event "parent-id") →
   absentOrEmpty (header event "x-parent-id") →
   header event "x-b3-parentspanid" = Some v → parentId id = Some v) ∧
  (absentOrEmpty (header event "span-id") →
   absentOrEmpty (header event "x-span-id") →
   header event "x-b3-spanid" = Some v → spanId id = v) ∧
  (absentOrEmpty (header event "trace-id") →
   absentOrEmpty (header event "x-trace-id") →
   header event "x-b3-traceid" = Some v → traceId id = v).
Proof.
  intros Hv id. subst id.
  unfold requestIdentifierContext, inboundCorrelationId, inboundParentId,
    inboundRequestId, inboundSessionId, inboundSpanId, inboundTraceId.
  cbn [requestIdentity correlationId parentId requestId sessionId spanId traceId].
  repeat split; intros Habs Habs' ->;
    rewrite (or_absent_l _ _ Habs), (or_absent_l _ _ Habs');
    rewrite ?(or_Some_l v) by done; rewrite ?orElse_Some by done; try done.
  apply String.eqb_neq in Hv. by rewrite Hv.
Qed.

Lemma b3_headers_are_third_witness :
  let id := requestIdentity (requestIdentifierContext sampleTrace sampleSpan b3Event) in
  spanId id = "00f067aa0ba902b7".
Proof.
  destruct (b3_headers_are_third sampleTrace sampleSpan b3Event "00f067aa0ba902b7")
    as (_ & Hsp & _); [discriminate|].
  intros id. apply Hsp; [by right | by left | reflexivity].
Defined.

(** X18. The request and session identifiers are the inbound ones when
    those are non-empty, and the resolved correlation identifier
    otherwise. *)
Theorem request_and_session_follow_correlation (trace span : list N) (event : Event) :
  let id := requestIdentity (requestIdentifierContext trace span event) in
  requestId id = inboundRequestId event ||! correlationId id ∧
  sessionId id = inboundSessionId event ||! correlationId id.
Proof.
  intros id. subst id. unfold requestIdentifierContext.
  cbn [requestIdentity correlationId requestId sessionId].
  by rewrite !or_assoc, !orElse_or.
Qed.

(** X19. A parent identifier is never made up: when the bundle has one,
    it is non-empty and one of the three parent headers holds it. *)
Theorem parentId_comes_from_a_header (trace span : list N) (event : Event) (p : string) :
  parentId (requestIdentity (requestIdentifierContext trace span event)) = Some p →
  p ≠ "" ∧
  (header event "parent-id" = Some p ∨
   header event "x-parent-id" = Some p ∨
   header event "x-b3-parentspanid" = Some p).
Proof.
  unfold requestIdentifierContext, inboundParentId.
  cbn [requestIdentity parentId].
  destruct (header event "parent-id") as [a|],
           (header event "x-parent-id") as [b|],
           (header event "x-b3-parentspanid") as [c|]; cbn;
    repeat match goal with
           | |- context [String.eqb ?s ""] =>
               destruct (String.eqb_spec s ""); cbn
           end;
    intros [=]; subst; auto.
Qed.

Lemma parentId_comes_from_a_header_witness :
  "05e3ac9a4f6e3b90" ≠ "" ∧
  (header b3Event "parent-id" = Some "05e3ac9a4f6e3b90" ∨
   header b3Event "x-parent-id" = Some "05e3ac9a4f6e3b90" ∨
   header b3Event "x-b3-parentspanid" = Some "05e3ac9a4f6e3b90").
Proof.
  apply (parentId_comes_from_a_header sampleTrace sampleSpan b3Event).
  reflexivity.
Defined.

(** X20. Only the fifteen identity headers are read: two events that
    agree on them resolve the same bundle, whatever else their header
    maps hold. *)
Theorem resolution_reads_identity_headers_only
    (trace span : list N) (event1 event2 : Event) :
  sameIdentityHeaders event1 event2 →
  requestIdentifierContext trace span event1
  = requestIdentifierContext trace span event2.
Proof.
  intros Hsame.
  unfold requestIdentifierContext, inboundCorrelationId, inboundParentId,
    inboundRequestId, inboundSessionId, inboundSpanId, inboundTraceId, header.
  repeat match goal with
         | |- context [headers event1 !! ?key] =>
             rewrite (Hsame key) by (unfold identityKeys; set_unfold; tauto)
         end.
  reflexivity.
Qed.

Lemma resolution_reads_identity_headers_only_witness :
  requestIdentifierContext sampleTrace sampleSpan b3Event
  = requestIdentifierContext sampleTrace sampleSpan
      {| headers := delete "content-type" (headers b3Event); payload := ∅ |}.
Proof.
  apply (resolution_reads_identity_headers_only sampleTrace sampleSpan b3Event).
  intros key Hkey. cbn [headers].
  rewrite lookup_delete_ne; [reflexivity|].
  intros <-. revert Hkey. unfold identityKeys. set_unfold. intros Hkey.
  repeat (destruct Hkey as [Hkey|Hkey]; [discriminate Hkey|]). exact Hkey.
Defined.

(** X21. A header that holds the empty string counts as a missing
    header: removing every such header changes nothing in the bundle. *)
Theorem empty_headers_count_as_missing (trace span : list N) (event : Event) :
  requestIdentifierContext trace span (dropEmptyHeaders event)
  = requestIdentifierContext trace span event.
Proof.
  assert (Hc : inboundCorrelationId (dropEmptyHeaders event)
               = inboundCorrelationId event ||| None).
  { unfold inboundCorrelationId.
    by rewrite !header_dropEmptyHeaders, or_norm_l, or_norm_r. }
  assert (Hr : inboundRequestId (dropEmptyHeaders event)
               = inboundRequestId event ||| None).
  { unfold inboundRequestId.
    by rewrite !header_dropEmptyHeaders, or_norm_l, or_norm_r. }
  assert (Hs : inboundSessionId (dropEmptyHeaders event)
               = inboundSessionId event ||| None).
  { unfold inboundSessionId.
    by rewrite !header_dropEmptyHeaders, or_norm_l, or_norm_r. }
  assert (Hp : inboundParentId (dropEmptyHeaders event)
               = inboundParentId event ||| None).
  { unfold inboundParentId.
    by rewrite !header_dropEmptyHeaders, or_norm_l, !or_norm_r, or_norm_l. }
  assert (Hsp : inboundSpanId (dropEmptyHeaders event)
                = inboundSpanId event ||| None).
  { unfold inboundSpanId.
    by rewrite !header_dropEmptyHeaders, or_norm_l, !or_norm_r, or_norm_l. }
  assert (Ht : inboundTraceId (dropEmptyHeaders event)
               = inboundTraceId event ||| None).
  { unfold inboundTraceId.
    by rewrite !header_dropEmptyHeaders, or_norm_l, !or_norm_r, or_norm_l. }
  unfold requestIdentifierContext. rewrite Hc, Hr, Hs, Hp, Hsp, Ht.
  rewrite convertMaybeHexStringToUuid_norm, convertMaybeUuidToHexString_norm.
  rewrite !or_norm_l, !orElse_norm.
  rewrite (or_norm_r (inboundRequestId event)), (or_norm_r (inboundSessionId event)).
  rewrite !or_norm_l.
  do 2 f_equal.
  destruct (inboundParentId event) as [p|]; cbn; [|done].
  by destruct (String.eqb p "") eqn:Hpe; cbn; rewrite ?Hpe.
Qed.

(** X22. The span buffer matters through its first eight bytes only,
    and not at all when a non-empty span identifier comes in. *)
Theorem span_buffer_influence (trace span span' : list N) (event : Event) :
  firstn 8 span = firstn 8 span' ∨
  (∃ s, inboundSpanId event = Some s ∧ s ≠ "") →
  requestIdentifierContext trace span event
  = requestIdentifierContext trace span' event.
Proof.
  unfold requestIdentifierContext. intros [-> | (s & -> & Hne)]; [done|].
  by rewrite !orElse_Some by done.
Qed.

Lemma span_buffer_influence_witness :
  requestIdentifierContext sampleTrace sampleSpan emptyEvent
  = requestIdentifierContext sampleTrace
      [240; 241; 242; 243; 244; 245; 246; 247; 0; 0; 0; 0; 0; 0; 0; 0]%N
      emptyEvent.
Proof.
  apply (span_buffer_influence sampleTrace sampleSpan
           [240; 241; 242; 243; 244; 245; 246; 247; 0; 0; 0; 0; 0; 0; 0; 0]%N
           emptyEvent).
  left. reflexivity.
Defined.

(** X23. With a non-empty inbound trace identifier nothing is taken from
    the trace buffer: the bundle is the same for every content of it. *)
Theorem trace_header_spares_trace_buffer
    (trace trace' span : list N) (event : Event) (t : string) :
  inboundTraceId event = Some t → t ≠ "" →
  requestIdentifierContext trace span event
  = requestIdentifierContext trace' span event.
Proof.
  intros Ht Hne. unfold requestIdentifierContext. rewrite Ht.
  rewrite convertMaybeHexStringToUuid_Some by done.
  pose proof (formatHexAsUUID_nonempty t) as Hf.
  rewrite !(orElse_or_Some _ (formatHexAsUUID t) (bytesToUuid trace)
              (bytesToUuid trace')) by done.
  by rewrite (or_Some_l t), !orElse_Some by done.
Qed.

Lemma trace_header_spares_trace_buffer_witness :
  requestIdentifierContext sampleTrace sampleSpan b3Event
  = requestIdentifierContext sampleSpan sampleSpan b3Event.
Proof.
  apply (trace_header_spares_trace_buffer
           sampleTrace sampleSpan sampleSpan b3Event sampleHex);
    [reflexivity | discriminate].
Defined.

(** X24. When a correlation identifier is the only identity header, it
    is the correlation, request and session identifier of the bundle, and
    the trace identifier is what is left of it once its first hyphen is
    removed; if nothing is left, the trace identifier comes from the trace
    buffer. *)
Theorem resolve_only_correlation (trace span : list N) (event : Event) (c : string) :
  onlyIdentityHeader event "correlation-id" c → c ≠ "" →
  requestIdentity (requestIdentifierContext trace span event)
  = {| correlationId := c;
       parentId := None;
       requestId := c;
       sessionId := c;
       spanId := bytesToHexString (firstn 8 span);
       traceId := Some (JS.replace "-" "" c) ||! bytesToHexString trace |}.
Proof.
  intros [Hc Hothers] Hne.
  unfold requestIdentifierContext, inboundCorrelationId, inboundParentId,
    inboundRequestId, inboundSessionId, inboundSpanId, inboundTraceId, header.
  rewrite Hc.
  rewrite !Hothers by (first [done | unfold identityKeys; set_unfold; tauto]).
  cbn [requestIdentity].
  change (None ||| None) with (@None string).
  change (convertMaybeHexStringToUuid None) with (@None string).
  change (None ||| ?x) with x.
  rewrite !(or_Some_l c) by done.
  rewrite !orElse_Some by done.
  unfold convertMaybeUuidToHexString.
  apply String.eqb_neq in Hne. by rewrite Hne.
Qed.

Lemma resolve_only_correlation_witness :
  requestIdentity (requestIdentifierContext sampleTrace sampleSpan correlatedEvent)
  = {| correlationId := sampleUuid;
       parentId := None;
       requestId := sampleUuid;
       sessionId := sampleUuid;
       spanId := bytesToHexString (firstn 8 sampleSpan);
       traceId := Some (JS.replace "-" "" sampleUuid) ||! bytesToHexString sampleTrace |}.
Proof.
  apply (resolve_only_correlation sampleTrace sampleSpan correlatedEvent sampleUuid).
  - split; [reflexivity|]. intros other _ Hne. by apply lookup_singleton_ne.
  - discriminate.
Defined.

(** ** Wrapping *)

Section WrappingMore.
Implicit Types (out : gmap string JS.value) (r : JS.value).

Lemma nullish_or_not r : nullish r ∨ ¬ nullish r.
Proof.
  unfold nullish. destruct r; auto; right; by intros [|].
Qed.

Lemma mergeHeaders_nullish r out :
  nullish r → mergeHeaders r out = JS.Rejected JS.TypeError.
Proof. by intros [-> | ->]. Qed.

Lemma mergeHeaders_resolved r out :
  ¬ nullish r →
  mergeHeaders r out
  = JS.Resolved
      (JS.VObj (<["headers" := JS.VObj (out ∪ ownHeaders r)]> (JS.spread r))).
Proof.
  unfold nullish. intros Hr.
  destruct r; try reflexivity; exfalso; apply Hr; auto.
Qed.

(** Identity headers written later cover those written before. *)
Lemma identityHeaders_cover (ctx1 ctx2 : RequestIdentifierContext) out :
  identityHeaders ctx1 ∪ (identityHeaders ctx2 ∪ out) = identityHeaders ctx1 ∪ out.
Proof.
  apply map_eq. intros key.
  destruct (decide (key ∈ identityKeys)) as [Hkey|Hkey].
  - destruct (bundleValue_is_Some (requestIdentity ctx1) key Hkey) as [v Hv].
    assert (Hl : identityHeaders ctx1 !! key = Some v)
      by (rewrite <- Hv; apply identityHeaders_lookup).
    by rewrite !(lookup_union_Some_l _ _ _ _ Hl).
  - assert (Hn : ∀ ctx, identityHeaders ctx !! key = None).
    { intros ctx. etrans; [apply identityHeaders_lookup|].
      by apply bundleValue_None. }
    by rewrite !lookup_union_r by apply Hn.
Qed.
End WrappingMore.

(** X25. On an event whose [headers] is a map of strings, so that
    reading the headers and resolving the bundle cannot throw, the
    middleware fails in two cases only: with the failure of the wrapped
    handler, or with a [TypeError] when the handler resolved to
    [undefined] or [null]. Every other outcome of the handler gives a
    response. *)
Theorem middleware_rejects_iff {TContext : Type}
    (next : Handler Event (option TContext) JS.value)
    (trace span : list N) (event : Event) (failure : JS.Error) :
  _DefaultAPIGatewayProxyRequestIdentifyingMiddleware next trace span event
  = JS.Rejected failure
  ↔ next event None = JS.Rejected failure ∨
    (failure = JS.TypeError ∧
     ∃ result, next event None = JS.Resolved result ∧ nullish result).
Proof.
  unfold _DefaultAPIGatewayProxyRequestIdentifyingMiddleware, nullish.
  destruct (next event None) as [result|e]; cbn [JS.await].
  - destruct (nullish_or_not result) as [Hn|Hn]; unfold nullish in Hn.
    + rewrite mergeHeaders_nullish by done. split.
      * intros [= <-]. right. eauto.
      * intros [[=] | [-> _]]. done.
    + rewrite mergeHeaders_resolved by done. split; [done|].
      intros [[=] | [_ (r & [= <-] & Hr)]]. done.
  - split; [intros [= ->]; by left|].
    intros [[= ->] | [_ (r & [=] & _)]]. done.
Qed.

(** X26. When the response of the handler has no headers, or has a
    falsy value for them, the returned response carries exactly the
    identity headers. *)
Theorem response_without_headers {TContext : Type}
    (next : Handler Event (option TContext) JS.value)
    (trace span : list N) (event : Event) (response : gmap string JS.value) :
  next event None = JS.Resolved (JS.VObj response) →
  JS.truthy (default JS.VUndefined (response !! "headers")) = false →
  _DefaultAPIGatewayProxyRequestIdentifyingMiddleware next trace span event
  = JS.Resolved
      (JS.VObj
         (<["headers" :=
              JS.VObj (identityHeaders (requestIdentifierContext trace span event))]>
            response)).
Proof.
  intros Hnext Hfalsy.
  rewrite next_called_with_event_only, Hnext. cbn [JS.await].
  rewrite mergeHeaders_object, Hfalsy. cbn [JS.spread].
  by rewrite (right_id_L ∅ (∪)).
Qed.

Lemma response_without_headers_witness :
  _DefaultAPIGatewayProxyRequestIdentifyingMiddleware
    bareHandler sampleTrace sampleSpan correlatedEvent
  = JS.Resolved
      (JS.VObj
         (<["headers" :=
              JS.VObj (identityHeaders
                         (requestIdentifierContext sampleTrace sampleSpan correlatedEvent))]>
            (JS.object [ ("statusCode", JS.VNum 200) ]))).
Proof.
  apply (response_without_headers bareHandler sampleTrace sampleSpan correlatedEvent);
    reflexivity.
Defined.

(** X27. A response that is a number or a boolean is not passed on: the
    middleware returns an object that holds the identity headers and
    nothing else. *)
Theorem primitive_response_is_replaced {TContext : Type}
    (next : Handler Event (option TContext) JS.value)
    (trace span : list N) (event : Event) (result : JS.value) :
  next event None = JS.Resolved result → plainPrimitive result →
  _DefaultAPIGatewayProxyRequestIdentifyingMiddleware next trace span event
  = JS.Resolved
      (JS.VObj
         {[ "headers" :=
              JS.VObj (identityHeaders (requestIdentifierContext trace span event)) ]}).
Proof.
  intros Hnext Hprim.
  rewrite next_called_with_event_only, Hnext. cbn [JS.await].
  destruct Hprim as [[n ->] | [b ->]];
    unfold mergeHeaders; cbn;
    by rewrite (right_id_L ∅ (∪)), insert_empty.
Qed.

Lemma primitive_response_is_replaced_witness :
  _DefaultAPIGatewayProxyRequestIdentifyingMiddleware
    numberHandler sampleTrace sampleSpan correlatedEvent
  = JS.Resolved
      (JS.VObj
         {[ "headers" :=
              JS.VObj (identityHeaders
                         (requestIdentifierContext sampleTrace sampleSpan correlatedEvent)) ]}).
Proof.
  apply (primitive_response_is_replaced
           numberHandler sampleTrace sampleSpan correlatedEvent (JS.VNum 204));
    [reflexivity | left; by exists 204%Z].
Defined.

(** X28. Wrapping a handler twice gives what wrapping it once gives in
    the outer invocation: the identity headers of the outer middleware
    replace those of the inner one, whose buffers leave no trace, and a
    failure is the same failure. *)
Theorem outer_wrapping_wins {TContext1 TContext2 TContext3 : Type}
    (next : Handler Event (option TContext3) JS.value)
    (trace1 span1 trace2 span2 : list N)
    (event : Event) (context : option TContext1) :
  asMiddleware trace1 span1
    (asMiddleware (TContext := TContext2) trace2 span2 next) event context
  = asMiddleware trace1 span1 next event context.
Proof.
  unfold asMiddleware, _DefaultAPIGatewayProxyRequestIdentifyingMiddleware.
  destruct (next event None) as [result|e]; cbn [JS.await]; [|done].
  destruct (nullish_or_not result) as [Hn|Hn].
  - by rewrite !mergeHeaders_nullish by done.
  - rewrite !mergeHeaders_resolved by done. cbn [JS.await].
    rewrite mergeHeaders_object, lookup_insert_eq. cbn [default from_option id JS.truthy JS.spread].
    by rewrite insert_insert_eq, identityHeaders_cover.
Qed.

(** X29. The outbound header set has the fifteen identity keys and no
    other key, whatever the bundle; a missing parent identifier does not
    remove its three keys. *)
Theorem identityHeaders_keys (ctx : RequestIdentifierContext) :
  dom (identityHeaders ctx) = list_to_set identityKeys ∧
  size (identityHeaders ctx) = 15.
Proof.
  assert (Hdom : dom (identityHeaders ctx) =@{gset string} list_to_set identityKeys).
  { apply set_eq. intros key.
    rewrite elem_of_dom, elem_of_list_to_set.
    assert (Hl : identityHeaders ctx !! key = bundleValue (requestIdentity ctx) key)
      by apply identityHeaders_lookup.
    rewrite Hl. split.
    - intros Hsome. destruct (decide (key ∈ identityKeys)) as [|Hno]; [done|].
      rewrite bundleValue_None in Hsome by done. by destruct Hsome.
    - apply bundleValue_is_Some. }
  split; [done|].
  rewrite <- size_dom, Hdom, size_list_to_set; [reflexivity|].
  apply (bool_decide_unpack _). by vm_compute.
Qed.
